(** * Data-Anonymization: the entity resolution and rewrite pipeline

    A shallow embedding of [src/data_anonymizer.py] (class [DataAnonymizer])
    and of the button handler of [src/app.py], with the properties of the
    specification stated and settled against it.

    Python strings are sequences of Unicode code points.  A character is a
    code point ([N]) and a string is a list of them.  The behaviour of the
    [str] methods on ASCII characters is written out below, as CPython
    implements it; what they do on a code point above U+007F comes from the
    Unicode tables of the interpreter, which are a parameter of the whole
    development ([unicode_tables]).  Theorems hold for any tables; closed
    examples evaluate with explicit ones. *)

From Stdlib Require Import String Ascii.
From Stdlib Require Import List NArith Arith Bool Lia Permutation Sorted.
Import ListNotations.

(* ================================================================== *)
(** * Characters and strings *)
(* ================================================================== *)

Definition char := N.
Definition str := list char.

(** A string literal of the source, as code points. *)
Definition ustr (s : string) : str :=
  List.map N_of_ascii (list_ascii_of_string s).
Arguments ustr s%_string.

Definition char_eqb (a b : char) : bool := N.eqb a b.

Fixpoint str_eqb (a b : str) : bool :=
  match a, b with
  | [], [] => true
  | x :: a', y :: b' => char_eqb x y && str_eqb a' b'
  | _, _ => false
  end.

(** The part of the interpreter's Unicode database that the program
    consults, for code points that are not ASCII:
    the character predicates behind [str.isalpha], [str.isdecimal],
    [str.isdigit], [str.isnumeric], [str.isupper], [str.islower],
    [str.istitle], [str.isspace]; the lowercase mapping of the character at
    an index of a string (CPython's [lower_ucs4], which looks at the context
    for a capital sigma); the full titlecase mapping of a character; and
    [unicodedata.normalize('NFKC', _)]. *)
Record unicode_tables := {
  u_isalpha : char -> bool;
  u_isdecimal : char -> bool;
  u_isdigit : char -> bool;
  u_isnumeric : char -> bool;
  u_isupper : char -> bool;
  u_islower : char -> bool;
  u_istitle : char -> bool;
  u_isspace : char -> bool;
  u_lower : str -> nat -> str;
  u_title : char -> str;
  u_nfkc : str -> str
}.

Definition between (lo hi c : N) : bool := ((lo <=? c) && (c <=? hi))%N.
Definition is_ascii (c : char) : bool := (c <? 128)%N.
Definition ascii_isupper (c : char) : bool := between 65 90 c.
Definition ascii_islower (c : char) : bool := between 97 122 c.
Definition ascii_isdigit (c : char) : bool := between 48 57 c.
(** [_Py_ascii_whitespace]: TAB, LF, VT, FF, CR, FS, GS, RS, US, SPACE. *)
Definition ascii_isspace (c : char) : bool :=
  between 9 13 c || between 28 32 c.
Definition ascii_tolower (c : char) : char :=
  if ascii_isupper c then (c + 32)%N else c.
Definition ascii_toupper (c : char) : char :=
  if ascii_islower c then (c - 32)%N else c.

Definition HYPHEN : char := 45%N.
Definition NEWLINE : char := 10%N.
Definition SPACE : char := 32%N.
Definition UNDERSCORE : char := 95%N.
Definition PLUS : char := 43%N.
Definition DOT : char := 46%N.
Definition LPAREN : char := 40%N.
Definition RPAREN : char := 41%N.
Definition AT : char := 64%N.
Definition BAR : char := 124%N.

Module Py.
Section WithTables.

Variable U : unicode_tables.

(** ** Character predicates *)

Definition c_isupper (c : char) : bool :=
  if is_ascii c then ascii_isupper c else u_isupper U c.
Definition c_islower (c : char) : bool :=
  if is_ascii c then ascii_islower c else u_islower U c.
Definition c_istitle (c : char) : bool :=
  if is_ascii c then false else u_istitle U c.
Definition c_isalpha (c : char) : bool :=
  if is_ascii c then ascii_isupper c || ascii_islower c else u_isalpha U c.
Definition c_isdecimal (c : char) : bool :=
  if is_ascii c then ascii_isdigit c else u_isdecimal U c.
Definition c_isdigit (c : char) : bool :=
  if is_ascii c then ascii_isdigit c else u_isdigit U c.
Definition c_isnumeric (c : char) : bool :=
  if is_ascii c then ascii_isdigit c else u_isnumeric U c.
Definition c_isspace (c : char) : bool :=
  if is_ascii c then ascii_isspace c else u_isspace U c.
(** [Py_UNICODE_ISALNUM]. *)
Definition c_isalnum (c : char) : bool :=
  c_isalpha c || c_isdecimal c || c_isdigit c || c_isnumeric c.
(** The derived property Cased: Lowercase, Uppercase or titlecase letter. *)
Definition c_iscased (c : char) : bool :=
  c_isupper c || c_islower c || c_istitle c.

(** ** [str] predicates *)

Definition nonempty (s : str) : bool :=
  match s with [] => false | _ :: _ => true end.

Definition isalnum (s : str) : bool := nonempty s && forallb c_isalnum s.
Definition isalpha (s : str) : bool := nonempty s && forallb c_isalpha s.

(** [str.isupper]: no lowercase or titlecase character, and at least one
    uppercase one. *)
Definition isupper (s : str) : bool :=
  negb (existsb (fun c => c_islower c || c_istitle c) s)
  && existsb c_isupper s.

(** [str.islower]: no uppercase or titlecase character, and at least one
    lowercase one. *)
Definition islower (s : str) : bool :=
  negb (existsb (fun c => c_isupper c || c_istitle c) s)
  && existsb c_islower s.

(** [str.istitle]: the loop of [unicode_istitle_impl], with its two flags. *)
Fixpoint istitle_loop (cased previous_is_cased : bool) (s : str) : bool :=
  match s with
  | [] => cased
  | ch :: rest =>
      if c_isupper ch || c_istitle ch then
        if previous_is_cased then false else istitle_loop true true rest
      else if c_islower ch then
        if previous_is_cased then istitle_loop true true rest else false
      else istitle_loop cased false rest
  end.
Definition istitle (s : str) : bool := istitle_loop false false s.

(** ** Case mappings *)

Definition lower_char (s : str) (i : nat) (c : char) : str :=
  if is_ascii c then [ascii_tolower c] else u_lower U s i.
Definition title_char (c : char) : str :=
  if is_ascii c then [ascii_toupper c] else u_title U c.

Fixpoint lower_from (s : str) (i : nat) (rest : str) : str :=
  match rest with
  | [] => []
  | c :: r => lower_char s i c ++ lower_from s (S i) r
  end.
(** [str.lower]. *)
Definition lower (s : str) : str := lower_from s 0 s.

Fixpoint title_from (s : str) (i : nat) (previous_is_cased : bool)
    (rest : str) : str :=
  match rest with
  | [] => []
  | c :: r =>
      (if previous_is_cased then lower_char s i c else title_char c)
      ++ title_from s (S i) (c_iscased c) r
  end.
(** [str.title]. *)
Definition title (s : str) : str := title_from s 0 false s.

(** [str.capitalize]: first character to titlecase, the rest to lowercase. *)
Definition capitalize (s : str) : str :=
  match s with
  | [] => []
  | c :: r => title_char c ++ lower_from s 1 r
  end.

(** ** Splitting, joining, searching *)

(** [s.split(sep)] for a one-character separator: empty pieces are kept. *)
Fixpoint split_on (sep : char) (s : str) : list str :=
  match s with
  | [] => [[]]
  | c :: r =>
      if char_eqb c sep then [] :: split_on sep r
      else match split_on sep r with
           | [] => [[c]]
           | p :: ps => (c :: p) :: ps
           end
  end.

(** [s.split()]: pieces between runs of whitespace, no empty piece.
    [cur] is the piece being read, in reverse. *)
Fixpoint split_ws (cur : str) (s : str) : list str :=
  match s with
  | [] => match cur with [] => [] | _ => [rev cur] end
  | c :: r =>
      if c_isspace c then
        match cur with
        | [] => split_ws [] r
        | _ => rev cur :: split_ws [] r
        end
      else split_ws (c :: cur) r
  end.
Definition split (s : str) : list str := split_ws [] s.

(** [sep.join(pieces)]. *)
Fixpoint join (sep : str) (pieces : list str) : str :=
  match pieces with
  | [] => []
  | [p] => p
  | p :: ps => p ++ sep ++ join sep ps
  end.

(** [s.strip()]. *)
Fixpoint lstrip (s : str) : str :=
  match s with
  | [] => []
  | c :: r => if c_isspace c then lstrip r else s
  end.
Definition strip (s : str) : str := rev (lstrip (rev (lstrip s))).

End WithTables.

(** [s.replace(c, '')] for a single character [c]. *)
Definition remove_char (c : char) (s : str) : str :=
  filter (fun x => negb (char_eqb x c)) s.

(** [c in s]. *)
Definition contains (c : char) (s : str) : bool := existsb (char_eqb c) s.

Definition startswith (s p : str) : bool := str_eqb (firstn (length p) s) p.
Definition endswith (s p : str) : bool :=
  (length p <=? length s) && str_eqb (skipn (length s - length p) s) p.
(** [s.endswith(tuple)], [s.startswith(tuple)]. *)
Definition endswith_any (s : str) (ps : list str) : bool :=
  existsb (endswith s) ps.
Definition startswith_any (s : str) (ps : list str) : bool :=
  existsb (startswith s) ps.

(** [s[a:b]], [s[:a]] and [s[b:]] for offsets that are not negative. *)
Definition slice (s : str) (a b : nat) : str := firstn (b - a) (skipn a s).
Definition slice_to (s : str) (a : nat) : str := firstn a s.
Definition slice_from (s : str) (b : nat) : str := skipn b s.

End Py.

(** Tables for text without any character above U+007F, and for symbols:
    no property holds, every mapping is the identity. *)
Definition plain_tables : unicode_tables := {|
  u_isalpha := fun _ => false;
  u_isdecimal := fun _ => false;
  u_isdigit := fun _ => false;
  u_isnumeric := fun _ => false;
  u_isupper := fun _ => false;
  u_islower := fun _ => false;
  u_istitle := fun _ => false;
  u_isspace := fun _ => false;
  u_lower := fun s i => match nth_error s i with Some c => [c] | None => [] end;
  u_title := fun c => [c];
  u_nfkc := fun s => s
|}.

(** The same with U+00DF, LATIN SMALL LETTER SHARP S: alphabetic, lowercase,
    its titlecase mapping is the two letters [Ss]. *)
Definition SHARP_S : char := 223%N.
Definition german_tables : unicode_tables := {|
  u_isalpha := fun c => char_eqb c SHARP_S;
  u_isdecimal := fun _ => false;
  u_isdigit := fun _ => false;
  u_isnumeric := fun _ => false;
  u_isupper := fun _ => false;
  u_islower := fun c => char_eqb c SHARP_S;
  u_istitle := fun _ => false;
  u_isspace := fun _ => false;
  u_lower := fun s i => match nth_error s i with Some c => [c] | None => [] end;
  u_title := fun c => if char_eqb c SHARP_S then [83%N; 115%N] else [c];
  u_nfkc := fun s => s
|}.

(* ================================================================== *)
(** * Regular expressions of the local detectors *)
(* ================================================================== *)

(** The fragment of [re] syntax that the patterns of [_detect_email] and
    [_detect_phone] use, matched the way [re] matches: leftmost, each
    quantifier greedy, backtracking into the latest choice first. *)
Module Re.

Inductive regex :=
| Eps                                              (* empty pattern *)
| Boundary                                         (* \b *)
| Class (p : char -> bool)                         (* one character *)
| Repeat (p : char -> bool) (lo : nat) (hi : option nat)   (* X{lo,hi} *)
| Optional (r : regex)                             (* (?:r)? *)
| Cat (r1 r2 : regex).

Fixpoint cat (rs : list regex) : regex :=
  match rs with
  | [] => Eps
  | r :: rs' => Cat r (cat rs')
  end.

Section Matching.

Variable U : unicode_tables.

(** [\w]: alphanumeric or underscore. *)
Definition is_word (c : char) : bool :=
  Py.c_isalnum U c || char_eqb c UNDERSCORE.
(** [\d]. *)
Definition is_digit (c : char) : bool := Py.c_isdecimal U c.

Definition word_at (s : str) (i : nat) : bool :=
  match nth_error s i with Some c => is_word c | None => false end.
Definition word_before (s : str) (i : nat) : bool :=
  match i with 0 => false | S j => word_at s j end.
(** [\b] holds at [i] when exactly one of the two neighbours is a word
    character. *)
Definition at_boundary (s : str) (i : nat) : bool :=
  xorb (word_before s i) (word_at s i).

(** Length of the longest prefix of [l] in the class, at most [hi]. *)
Fixpoint run (p : char -> bool) (hi : option nat) (l : str) : nat :=
  match l, hi with
  | _, Some 0 => 0
  | [], _ => 0
  | c :: l', _ =>
      if p c then S (run p (option_map pred hi) l') else 0
  end.

(** Try the continuation after [n], [n-1], ..., [lo] repetitions. *)
Fixpoint backtrack (k : nat -> option nat) (i lo n : nat) : option nat :=
  if n <? lo then None
  else match k (i + n) with
       | Some e => Some e
       | None => match n with
                 | 0 => None
                 | S n' => backtrack k i lo n'
                 end
       end.

(** [exec s r k i]: match [r] at offset [i] of [s], then the rest of the
    pattern [k]; the result is the end of the whole match. *)
Fixpoint exec (s : str) (r : regex) (k : nat -> option nat) (i : nat)
    : option nat :=
  match r with
  | Eps => k i
  | Boundary => if at_boundary s i then k i else None
  | Class p =>
      match nth_error s i with
      | Some c => if p c then k (S i) else None
      | None => None
      end
  | Repeat p lo hi => backtrack k i lo (run p hi (skipn i s))
  | Optional r' =>
      match exec s r' k i with
      | Some e => Some e
      | None => k i
      end
  | Cat r1 r2 => exec s r1 (exec s r2 k) i
  end.

Definition match_at (s : str) (r : regex) (i : nat) : option nat :=
  exec s r Some i.

(** [re.finditer(r, s)]: the spans of the successive leftmost matches, each
    search starting where the previous match ended.  (No pattern of the
    source matches the empty string; after an empty match the scan moves on
    by one character.) *)
Fixpoint scan (fuel : nat) (s : str) (r : regex) (pos : nat)
    : list (nat * nat) :=
  match fuel with
  | 0 => []
  | S fuel' =>
      if length s <? pos then []
      else match match_at s r pos with
           | Some e =>
               (pos, e) :: scan fuel' s r (if e <=? pos then S pos else e)
           | None => scan fuel' s r (S pos)
           end
  end.
Definition finditer (r : regex) (s : str) : list (nat * nat) :=
  scan (S (length s)) s r 0.

End Matching.

Definition one_of (cs : str) (c : char) : bool := Py.contains c cs.
Definition lit (c : char) : regex := Class (char_eqb c).
(** [X?] on a character class. *)
Definition opt (p : char -> bool) : regex := Repeat p 0 (Some 1).

(** The characters that a pattern can consume. *)
Fixpoint accepts (r : regex) (c : char) : bool :=
  match r with
  | Eps | Boundary => false
  | Class p => p c
  | Repeat p _ _ => p c
  | Optional r' => accepts r' c
  | Cat r1 r2 => accepts r1 c || accepts r2 c
  end.
(** Every offset from [i] up to [j] holds a character that [r] accepts. *)
Definition covered (s : str) (r : regex) (i j : nat) : Prop :=
  forall x, i <= x < j ->
    exists c, nth_error s x = Some c /\ accepts r c = true.

End Re.

(* ================================================================== *)
(** * Entities *)
(* ================================================================== *)

(** The dictionaries that the detectors and the resolution loop build:
    keys ['entity'], ['start'], ['end'], ['word'] and, when set,
    ['replacement'].  Offsets are character offsets, never negative. *)
Record entity := {
  e_entity : str;
  e_start : nat;
  e_end : nat;
  e_word : str;
  e_replacement : option str
}.

(** [d.get(k, default)] on a dictionary with string keys. *)
Definition dict_get (d : list (str * str)) (k : str) (default : str) : str :=
  match find (fun kv => str_eqb (fst kv) k) d with
  | Some kv => snd kv
  | None => default
  end.

(** [self.replacement_dict]. *)
Definition replacement_dict : list (str * str) :=
  [ (ustr "PER", ustr "[PERSON]");
    (ustr "ORG", ustr "[ORGANIZATION]");
    (ustr "LOC", ustr "[LOCATION]");
    (ustr "MISC", ustr "[MISC]");
    (ustr "EMAIL", ustr "[EMAIL]");
    (ustr "PHONE", ustr "[PHONE]") ].

Definition UNKNOWN : str := ustr "[UNKNOWN]".

(* ================================================================== *)
(** * Local detectors *)
(* ================================================================== *)

Section Detectors.

Variable U : unicode_tables.

Definition ascii_alnum (c : char) : bool :=
  ascii_isupper c || ascii_islower c || ascii_isdigit c.

(** [\b[A-Za-z0-9._%+-]+@[A-Za-z0-9.-]+\.[A-Z|a-z]{2,}\b] *)
Definition email_pattern : Re.regex :=
  Re.cat
    [ Re.Boundary;
      Re.Repeat (fun c => ascii_alnum c || Re.one_of (ustr "._%+-") c) 1 None;
      Re.lit AT;
      Re.Repeat (fun c => ascii_alnum c || Re.one_of (ustr ".-") c) 1 None;
      Re.lit DOT;
      Re.Repeat
        (fun c => ascii_isupper c || char_eqb c BAR || ascii_islower c) 2 None;
      Re.Boundary ].

Definition _detect_email (text : str) : list entity :=
  List.map
    (fun m => {| e_entity := ustr "EMAIL";
                 e_start := fst m;
                 e_end := snd m;
                 e_word := Py.slice text (fst m) (snd m);
                 e_replacement := None |})
    (Re.finditer U email_pattern text).

Definition digits (lo hi : nat) : Re.regex :=
  Re.Repeat (Re.is_digit U) lo (Some hi).
Definition sep : Re.regex := Re.opt (Re.one_of (ustr "-.")).

(** [(?:\+?\d{1,3}[-.]?)?] *)
Definition country_code : Re.regex :=
  Re.Optional (Re.cat [Re.opt (char_eqb PLUS); digits 1 3; sep]).

(** [\d{lo,hi}[-.]?\d{lo,hi}[-.]?\d{lo,hi}] between the country code and
    the final [\b]. *)
Definition grouped (lo hi : nat) : Re.regex :=
  Re.cat [ Re.Boundary; country_code;
           digits lo hi; sep; digits lo hi; sep; digits lo hi;
           Re.Boundary ].

Definition phone_patterns : list Re.regex :=
  [ (* \b(?:\+?\d{1,3}[-.]?)?\(?\d{3}\)?[-.]?\d{3}[-.]?\d{4}\b *)
    Re.cat [ Re.Boundary; country_code;
             Re.opt (char_eqb LPAREN); digits 3 3; Re.opt (char_eqb RPAREN); sep;
             digits 3 3; sep; digits 4 4; Re.Boundary ];
    grouped 2 4;     (* International *)
    grouped 1 4;     (* Flexible format *)
    grouped 1 3;     (* Short format *)
    grouped 1 2 ].   (* Very short format *)

(** [match.group().replace('-', '').replace('.', '').replace('(', '')
    .replace(')', '')] *)
Definition strip_separators (m : str) : str :=
  Py.remove_char RPAREN (Py.remove_char LPAREN (Py.remove_char DOT
    (Py.remove_char HYPHEN m))).

Definition phone_entity (text : str) (m : nat * nat) : entity :=
  {| e_entity := ustr "PHONE";
     e_start := fst m;
     e_end := snd m;
     e_word := Py.slice text (fst m) (snd m);
     e_replacement := Some (ustr "[PHONE]") |}.

(** The validation of one match: kept when the stripped match has at least
    6 characters. *)
Definition phone_accepted (text : str) (m : nat * nat) : bool :=
  6 <=? length (strip_separators (Py.slice text (fst m) (snd m))).

Definition _detect_phone (text : str) : list entity :=
  flat_map
    (fun pattern =>
       List.map (phone_entity text)
         (filter (phone_accepted text) (Re.finditer U pattern text)))
    phone_patterns.

End Detectors.


(* ================================================================== *)
(** * Exceptions and the classifier service *)
(* ================================================================== *)

(** The exceptions that leave the methods modelled here. *)
Inductive exn :=
| ValueError       (* "Unexpected API response structure" *)
| QueryError       (* Exception("Error querying model API: ...") *)
| IndexError.      (* string index out of range *)

Inductive outcome (A : Type) :=
| Return (a : A)
| Raise (e : exn).
Arguments Return {A} a.
Arguments Raise {A} e.

(** One entity record of the classifier's JSON answer: the keys that the
    program reads, each present or not, with values of the types that the
    classifier gives them: strings, and character offsets that are not
    negative.  (On a value of another type the program raises before any
    text is rewritten; such answers are outside what is stated here.) *)
Record record := {
  r_entity_group : option str;
  r_label : option str;
  r_start : option nat;
  r_end : option nat;
  r_word : option str
}.

(** An element of a JSON array: an object, an array, or anything else. *)
#[warnings="-register-all"]
Inductive element :=
| Obj (r : record)
| Arr (sub : list element)
| Atom.

(** The decoded body of an answer: an array, an object with or without
    the key ['entities'], or another JSON value. *)
Inductive json :=
| JArr (l : list element)
| JObj (entities : option (list element))
| JAtom.

(** What [requests.post] followed by [raise_for_status] and [json] gives:
    a [RequestException], or the decoded body. *)
Inductive response :=
| RequestException
| Body (j : json).

(** The remote service: the answer to a request with payload
    [{"inputs": text}]. *)
Definition service := str -> response.

(** Computations that may post requests to the service and may raise.
    The state is the list of payloads posted so far, latest last. *)
Definition io (A : Type) : Type := list str -> outcome A * list str.

Definition ret {A : Type} (a : A) : io A := fun w => (Return a, w).
Definition raise {A : Type} (e : exn) : io A := fun w => (Raise e, w).
Definition bind {A B : Type} (m : io A) (f : A -> io B) : io B :=
  fun w => match m w with
           | (Return a, w') => f a w'
           | (Raise e, w') => (Raise e, w')
           end.
Definition lift {A : Type} (o : outcome A) : io A := fun w => (o, w).
Definition post (api : service) (payload : str) : io response :=
  fun w => (Return (api payload), w ++ [payload]).

Notation "x <- m ;; k" := (bind m (fun x => k))
  (at level 61, m at next level, right associativity).

(** Sequencing of computations that only raise. *)
Definition obind {A B : Type} (o : outcome A) (f : A -> outcome B) : outcome B :=
  match o with
  | Return a => f a
  | Raise e => Raise e
  end.
Notation "'let*' x := o 'in' k" := (obind o (fun x => k))
  (at level 61, x pattern, o at next level, right associativity).

(* ================================================================== *)
(** * DataAnonymizer *)
(* ================================================================== *)

Definition location_suffixes : list str :=
  List.map ustr
    [ "burg"; "berg"; "town"; "city"; "ville"; "polis"; "grad"; "abad";
      "pur"; "nagar"; "pore"; "stan"; "land"; "ia"; "ya" ]%string.
Definition location_prefixes : list str :=
  List.map ustr
    [ "new"; "old"; "north"; "south"; "east"; "west"; "upper"; "lower";
      "port"; "fort"; "saint"; "san"; "santa" ]%string.

(** The fourth Nordic entry is written in the source with the two code
    points U+221A and U+2265 after the [d]. *)
Definition surname_patterns : list (str * list str) :=
  [ (ustr "slavic", List.map ustr ["ov"; "ev"; "ski"; "sky"; "ova"; "eva"]%string);
    (ustr "asian", List.map ustr ["yan"; "ian"; "jin"; "chen"; "li"; "wang"]%string);
    (ustr "nordic", [ ustr "sen"; ustr "sson"; ustr "dottir";
                      ustr "d" ++ [8730%N; 8805%N] ++ ustr "ttir" ]);
    (ustr "middle_eastern",
       List.map ustr ["zadeh"; "oglu"; "oglu"; "oglu"; "pour"]%string);
    (ustr "indian", List.map ustr ["raj"; "kumar"; "singh"; "patel"; "sharma"]%string);
    (ustr "hispanic", List.map ustr ["ez"; "es"; "os"; "as"; "is"]%string) ].

Section DataAnonymizer.

Variable U : unicode_tables.
Variable api : service.

Definition _normalize_text (text : str) : str := u_nfkc U text.

(** The body of the loop over the words of a line. *)
Definition preprocess_word (word : str) : str :=
  if Py.isupper U word && (2 <? length word) then
    if Py.isalpha U word then Py.title U word else word
  else if Py.islower U word && (2 <? length word) then
    if Py.isalpha U word
       && match word with c :: _ => Py.c_isalpha U c | [] => false end
    then Py.capitalize U word
    else word
  else word.

Definition preprocess_line (line : str) : str :=
  Py.join [SPACE] (List.map preprocess_word (Py.split U line)).

Definition _preprocess_text (text : str) : str :=
  Py.join [NEWLINE] (List.map preprocess_line (Py.split_on NEWLINE text)).

Definition _query_model (text : str) : io (list element) :=
  let processed_text := _preprocess_text text in
  response <- post api processed_text ;;
  match response with
  | RequestException => raise QueryError
  | Body (JArr result) =>
      match result with
      | Arr first :: _ => ret first
      | _ => ret result
      end
  | Body (JObj entities) =>
      ret (match entities with Some l => l | None => [] end)
  | Body JAtom => raise ValueError
  end.

(** ** Resolution of one classifier record *)

Definition or_else {A : Type} (o : option A) (d : A) : A :=
  match o with Some a => a | None => d end.

(** [entity.get('entity_group', entity.get('label', ''))], then the part
    after the last hyphen. *)
Definition entity_group_of (r : record) : str :=
  let entity_group := or_else (r_entity_group r) (or_else (r_label r) []) in
  if Py.contains HYPHEN entity_group
  then last (Py.split_on HYPHEN entity_group) []
  else entity_group.

Definition is_surname (word : str) : bool :=
  existsb (fun patterns => existsb (Py.endswith (Py.lower U word)) (snd patterns))
    surname_patterns.

Definition person_replacement (word : str) : str :=
  if Py.isupper U word && Py.isalpha U word then ustr "[PERSON]"
  else if Py.islower U word then ustr "[person]"
  else if Py.istitle U word then
    if is_surname word then ustr "[SURNAME]" else ustr "[Person]"
  else ustr "[PERSON]".

Definition organization_replacement (entity_group word : str) : str :=
  if Py.isupper U word && Py.isalpha U word then ustr "[PERSON]"
  else if Py.istitle U word && Py.isalpha U word then ustr "[Person]"
  else if negb (Py.isalpha U word) then ustr "[ORGANIZATION]"
  else dict_get replacement_dict entity_group UNKNOWN.

Definition location_replacement (entity_group word : str) : str :=
  if Py.isupper U word && Py.isalpha U word then ustr "[PERSON]"
  else if Py.istitle U word && Py.isalpha U word then
    if Py.endswith_any (Py.lower U word) location_suffixes
       || Py.startswith_any (Py.lower U word) location_prefixes
    then ustr "[LOCATION]"
    else ustr "[Person]"
  else dict_get replacement_dict entity_group UNKNOWN.

Definition replacement_for (entity_group word : str) : str :=
  if str_eqb entity_group (ustr "PER") then person_replacement word
  else if str_eqb entity_group (ustr "ORG")
  then organization_replacement entity_group word
  else if str_eqb entity_group (ustr "LOC")
  then location_replacement entity_group word
  else dict_get replacement_dict entity_group UNKNOWN.

(** The skip test: [len(word) < 2 or not word.replace('-', '').isalnum()]. *)
Definition skipped (word : str) : bool :=
  (length word <? 2) || negb (Py.isalnum U (Py.remove_char HYPHEN word)).

(** The body of the loop over [ner_results] for a dictionary: [None] is
    [continue]. *)
Definition resolve (r : record) : option entity :=
  let entity_group := entity_group_of r in
  let start := or_else (r_start r) 0 in
  let end_ := or_else (r_end r) 0 in
  let word := or_else (r_word r) [] in
  if skipped word then None
  else Some {| e_entity := entity_group;
               e_start := start;
               e_end := end_;
               e_word := word;
               e_replacement := Some (replacement_for entity_group word) |}.

(** The loop over [ner_results]: elements that are not dictionaries are
    passed over. *)
Fixpoint resolve_all (ner_results : list element) : list entity :=
  match ner_results with
  | [] => []
  | Obj r :: rest =>
      match resolve r with
      | Some e => e :: resolve_all rest
      | None => resolve_all rest
      end
  | _ :: rest => resolve_all rest
  end.

(** ** Ordering *)

(** [l.sort(key=lambda x: x['start'], reverse=True)]: descending starts,
    entities with equal starts keep their order. *)
Fixpoint insert_desc (x : entity) (l : list entity) : list entity :=
  match l with
  | [] => [x]
  | y :: l' =>
      if e_start y <=? e_start x then x :: l
      else y :: insert_desc x l'
  end.
Fixpoint sort_desc (l : list entity) : list entity :=
  match l with
  | [] => []
  | x :: l' => insert_desc x (sort_desc l')
  end.

(** [all_entities] as the rewrite loop receives it. *)
Definition all_entities (ner_results : list element) (text : str)
    : list entity :=
  sort_desc (resolve_all ner_results
             ++ (_detect_email U text ++ _detect_phone U text)).

(** ** Rewrite *)

(** [s[i]]. *)
Definition getitem (s : str) (i : nat) : outcome char :=
  match nth_error s i with
  | Some c => Return c
  | None => Raise IndexError
  end.

(** [while start > 0 and text[start-1].isalnum(): start -= 1] *)
Fixpoint expand_start (text : str) (start : nat) : outcome nat :=
  match start with
  | 0 => Return 0
  | S before =>
      let* c := getitem text before in
      if Py.c_isalnum U c then expand_start text before
      else Return start
  end.

(** [while end < len(text) and text[end].isalnum(): end += 1] *)
Fixpoint alnum_run (l : str) : nat :=
  match l with
  | [] => 0
  | c :: l' => if Py.c_isalnum U c then S (alnum_run l') else 0
  end.
Definition expand_end (text : str) (end_ : nat) : nat :=
  end_ + alnum_run (skipn end_ text).

(** [i == bound or not text[j].isalnum()], the index read only when the
    first test fails. *)
Definition edge_or_not_alnum (at_edge : bool) (text : str) (j : nat)
    : outcome bool :=
  if at_edge then Return true
  else let* c := getitem text j in Return (negb (Py.c_isalnum U c)).

(** [entity.get('replacement',
                self.replacement_dict.get(entity['entity'], '[UNKNOWN]'))] *)
Definition replacement_of (e : entity) : str :=
  or_else (e_replacement e) (dict_get replacement_dict (e_entity e) UNKNOWN).

(** A replacement that was carried out: the entity, and the bounds
    [start], [end] of the slice of the working text that it replaced. *)
Record edit := {
  ed_entity : entity;
  ed_start : nat;
  ed_end : nat
}.

(** One turn of the rewrite loop on the working text: the new text, and
    the edit when the text was rewritten. *)
Definition rewrite_step (anonymized_text : str) (e : entity)
    : outcome (str * option edit) :=
  let replacement := replacement_of e in
  let* start := expand_start anonymized_text (e_start e) in
  let end_ := expand_end anonymized_text (e_end e) in
  let* left_ok :=
    edge_or_not_alnum (start =? 0) anonymized_text (start - 1) in
  let* ok :=
    if left_ok
    then edge_or_not_alnum (end_ =? length anonymized_text)
           anonymized_text end_
    else Return false in
  if ok then
    let word_to_replace := Py.slice anonymized_text start end_ in
    if Py.isalnum U word_to_replace && (1 <? length word_to_replace) then
      Return (Py.slice_to anonymized_text start ++ replacement
                ++ Py.slice_from anonymized_text end_,
              Some {| ed_entity := e; ed_start := start; ed_end := end_ |})
    else Return (anonymized_text, None)
  else Return (anonymized_text, None).

(** The rewrite loop; the edits are listed in the order they were made. *)
Fixpoint rewrite (anonymized_text : str) (entities : list entity)
    : outcome (str * list edit) :=
  match entities with
  | [] => Return (anonymized_text, [])
  | e :: rest =>
      let* (text', done) := rewrite_step anonymized_text e in
      let* (final, edits) := rewrite text' rest in
      Return (final, match done with
                     | Some d => d :: edits
                     | None => edits
                     end)
  end.

(** [anonymize_text], with the edits it made next to the text it returns. *)
Definition anonymize (text : str) : io (str * list edit) :=
  let text := _normalize_text text in
  ner_results <- _query_model text ;;
  lift (rewrite text (all_entities ner_results text)).

Definition anonymize_text (text : str) : io str :=
  r <- anonymize text ;; ret (fst r).

End DataAnonymizer.

(* ================================================================== *)
(** * The button handler of app.py *)
(* ================================================================== *)

(** What the handler leaves on the page: the warning, an error message, or
    the results stored in the session state. *)
Inductive page :=
| Warning                 (* "Please enter some text to anonymize." *)
| Error (e : exn)
| Results (anonymized_text : str) (detected_entities : list entity).

Section App.

Variable U : unicode_tables.
Variable api : service.

Definition app_replacement_for (entity_group word : str) : str :=
  if str_eqb entity_group (ustr "PER") then
    if Py.isupper U word then ustr "[PERSON]"
    else if Py.islower U word then ustr "[person]"
    else if Py.istitle U word then ustr "[Person]"
    else ustr "[PERSON]"
  else dict_get replacement_dict entity_group UNKNOWN.

Definition app_resolve (r : record) : entity :=
  let entity_group := entity_group_of r in
  let word := or_else (r_word r) [] in
  {| e_entity := entity_group;
     e_start := or_else (r_start r) 0;
     e_end := or_else (r_end r) 0;
     e_word := word;
     e_replacement := Some (app_replacement_for entity_group word) |}.

Fixpoint app_resolve_all (ner_results : list element) : list entity :=
  match ner_results with
  | [] => []
  | Obj r :: rest => app_resolve r :: app_resolve_all rest
  | _ :: rest => app_resolve_all rest
  end.

(** [entity['replacement'] = replacement_dict.get(entity['entity'], ...)] *)
Definition with_replacement (e : entity) : entity :=
  {| e_entity := e_entity e;
     e_start := e_start e;
     e_end := e_end e;
     e_word := e_word e;
     e_replacement := Some (dict_get replacement_dict (e_entity e) UNKNOWN) |}.

Definition app_rewrite (text : str) (entities : list entity) : str :=
  fold_left
    (fun anonymized_text e =>
       Py.slice_to anonymized_text (e_start e) ++ replacement_of e
         ++ Py.slice_from anonymized_text (e_end e))
    entities text.

(** The body of [if st.button("Anonymize Text")].  On records of the
    types above, [_query_model] is the only call inside the [try] that can
    raise: the loop of the page slices the text, and a slice accepts any
    offsets. *)
Definition on_anonymize (input_text : str) : io page :=
  if Py.nonempty (Py.strip U input_text) then
    fun w =>
      match _query_model U api input_text w with
      | (Return ner_results, w') =>
          let additional_entities :=
            List.map with_replacement
              (_detect_email U input_text ++ _detect_phone U input_text) in
          let all_entities :=
            sort_desc (app_resolve_all ner_results ++ additional_entities) in
          (Return (Results (app_rewrite input_text all_entities) all_entities),
           w')
      | (Raise e, w') => (Return (Error e), w')
      end
  else ret Warning.

End App.

(* ================================================================== *)
(** * Stub classifiers and records for the examples *)
(* ================================================================== *)

Definition mk_record (entity_group : string) (start end_ : nat)
    (word : string) : record :=
  {| r_entity_group := Some (ustr entity_group);
     r_label := None;
     r_start := Some start;
     r_end := Some end_;
     r_word := Some (ustr word) |}.

(** A classifier that answers every request with the same flat list. *)
Definition answering (records : list record) : service :=
  fun _ => Body (JArr (List.map Obj records)).

(** A classifier that tags the first four characters of the text it
    receives as a person, with the surface it sees there. *)
Definition tags_first_four : service :=
  fun inputs =>
    Body (JArr [Obj {| r_entity_group := Some (ustr "PER");
                       r_label := None;
                       r_start := Some 0;
                       r_end := Some 4;
                       r_word := Some (Py.slice inputs 0 4) |}]).

(** A classifier that tags the first five characters of the text it
    receives as a person. *)
Definition tags_first_five : service :=
  fun inputs =>
    Body (JArr [Obj {| r_entity_group := Some (ustr "PER");
                       r_label := None;
                       r_start := Some 0;
                       r_end := Some 5;
                       r_word := Some (Py.slice inputs 0 5) |}]).


Definition Smith_span : entity :=
  {| e_entity := ustr "PER"; e_start := 5; e_end := 10;
     e_word := ustr "Smith"; e_replacement := Some (ustr "[Person]") |}.

Definition John_span : entity :=
  {| e_entity := ustr "PER"; e_start := 0; e_end := 4;
     e_word := ustr "John"; e_replacement := Some (ustr "[Person]") |}.

(* ================================================================== *)
(** * Vocabulary of the properties *)
(* ================================================================== *)


(** The number of decimal digits, and of plus signs, in a string. *)
Definition digit_count (U : unicode_tables) (s : str) : nat :=
  length (filter (Re.is_digit U) s).
Definition plus_count (s : str) : nat :=
  length (filter (char_eqb PLUS) s).

Definition total (pieces : list str) : nat :=
  list_sum (List.map (@length char) pieces).

Definition ascii_only (s : str) : Prop :=
  Forall (fun c => is_ascii c = true) s.


(** The ten placeholders that the program can insert. *)
Definition placeholders : list str :=
  List.map ustr
    [ "[PERSON]"; "[person]"; "[Person]"; "[SURNAME]"; "[ORGANIZATION]";
      "[LOCATION]"; "[MISC]"; "[EMAIL]"; "[PHONE]"; "[UNKNOWN]" ]%string.

(** The keys of [replacement_dict]. *)
Definition replacement_keys : list str := List.map fst replacement_dict.

(** Every span replaced at its own offsets of [text], the entities listed
    by descending start: the part of [text] before the first entity's span
    is rewritten with the remaining entities, the replacement follows, and
    the text after the span is kept. *)
Fixpoint replace_at_offsets (text : str) (entities : list entity) : str :=
  match entities with
  | [] => text
  | e :: rest =>
      replace_at_offsets (Py.slice_to text (e_start e)) rest
      ++ replacement_of e ++ Py.slice_from text (e_end e)
  end.

Definition spans (entities : list entity) : list (nat * nat) :=
  List.map (fun e => (e_start e, e_end e)) entities.

(** What is detected of an entity: all its keys but the replacement. *)
Definition detection (e : entity) : str * nat * nat * str :=
  (e_entity e, e_start e, e_end e, e_word e).

(** Entities by descending start, each ending where the ones before it
    start or earlier. *)
Definition apart (a b : entity) : Prop :=
  e_start b <= e_start a /\ e_end b <= e_start a.

(** A character of a preprocessed word against the character it comes
    from: the same, or its ASCII uppercase or lowercase. *)
Definition recased (c c' : char) : Prop :=
  c' = c \/ c' = ascii_toupper c \/ c' = ascii_tolower c.

(** The words of the lines of a text, in lowercase. *)
Definition lowered_words (U : unicode_tables) (text : str) : list (list str) :=
  List.map (fun line => List.map (Py.lower U) (Py.split U line))
    (Py.split_on NEWLINE text).

(** [s] ends with one of the [suffixes], starts with one of the
    [prefixes]. *)
Definition ends_with_one_of (suffixes : list str) (s : str) : Prop :=
  exists suffix prefix, In suffix suffixes /\ s = prefix ++ suffix.
Definition starts_with_one_of (prefixes : list str) (s : str) : Prop :=
  exists prefix rest, In prefix prefixes /\ s = prefix ++ rest.

Section Vocabulary.

Variable U : unicode_tables.

(** "All-uppercase alphabetic". *)
Definition upper_alpha (word : str) : bool :=
  Py.isupper U word && Py.isalpha U word.

(** "Title-case alphabetic". *)
Definition title_alpha (word : str) : bool :=
  Py.istitle U word && Py.isalpha U word.

(** The characters of a phone match: digits, plus signs, separators. *)
Definition phone_char (c : char) : Prop :=
  Re.is_digit U c = true \/ c = PLUS
  \/ In c [HYPHEN; DOT; LPAREN; RPAREN].

Definition alnum_at (w : str) (i : nat) : Prop :=
  exists c, nth_error w i = Some c /\ Py.c_isalnum U c = true.

Definition not_alnum_at (w : str) (i : nat) : Prop :=
  exists c, nth_error w i = Some c /\ Py.c_isalnum U c = false.




(** Whitespace at the start of a line, at its end, or twice in a row. *)
Definition starts_with_space (l : str) : bool :=
  match l with c :: _ => Py.c_isspace U c | [] => false end.

Fixpoint ends_with_space (l : str) : bool :=
  match l with
  | [] => false
  | [c] => Py.c_isspace U c
  | _ :: r => ends_with_space r
  end.

Fixpoint consecutive_spaces (l : str) : bool :=
  match l with
  | [] => false
  | c :: r => (Py.c_isspace U c && starts_with_space r) || consecutive_spaces r
  end.

Definition extra_whitespace (line : str) : bool :=
  starts_with_space line || ends_with_space line || consecutive_spaces line.

Definition space_count (l : str) : nat :=
  length (filter (Py.c_isspace U) l).




(** [r] matches the slice [s[i:j]]: the meaning of a pattern, without
    the order in which the matcher tries the alternatives. *)
Fixpoint matches (s : str) (r : Re.regex) (i j : nat) : Prop :=
  match r with
  | Re.Eps => j = i
  | Re.Boundary => j = i /\ Re.at_boundary U s i = true
  | Re.Class p =>
      j = S i /\ exists c, nth_error s i = Some c /\ p c = true
  | Re.Repeat p lo hi =>
      i <= j /\ lo <= j - i
      /\ match hi with Some h => j - i <= h | None => True end
      /\ forall x, i <= x < j ->
           exists c, nth_error s x = Some c /\ p c = true
  | Re.Optional r' => j = i \/ matches s r' i j
  | Re.Cat r1 r2 => exists m, matches s r1 i m /\ matches s r2 m j
  end.

(** No whitespace in a string. *)
Definition no_space (w : str) : Prop :=
  Forall (fun c => Py.c_isspace U c = false) w.

End Vocabulary.

(* ================================================================== *)
(** * Facts about the string methods *)
(* ================================================================== *)

Section StrFacts.

Variable U : unicode_tables.

Lemma existsb_weaken (A : Type) (p q : A -> bool) (l : list A) :
  (forall x, p x = true -> q x = true) ->
  existsb p l = true -> existsb q l = true.
Proof.
  intros Hpq H. apply existsb_exists in H as [x [Hin Hx]].
  apply existsb_exists. exists x. auto.
Qed.

(** A string cannot be both [islower] and [isupper]. *)
Lemma islower_not_isupper (s : str) :
  Py.islower U s = true -> Py.isupper U s = false.
Proof.
  unfold Py.islower, Py.isupper. intros H.
  apply andb_true_iff in H as [_ H].
  apply andb_false_iff. left. apply negb_false_iff.
  revert H. apply existsb_weaken. intros x Hx. now rewrite Hx.
Qed.

(** A string without uppercase or titlecase character is not title case. *)
Lemma istitle_loop_no_upper (s : str) (cased : bool) :
  existsb (fun c => Py.c_isupper U c || Py.c_istitle U c) s = false ->
  Py.istitle_loop U cased false s = true -> cased = true.
Proof.
  induction s as [|ch s IH]; simpl; intros Hs H; [exact H|].
  apply orb_false_iff in Hs as [Hch Hs]. rewrite Hch in H.
  destruct (Py.c_islower U ch); [discriminate|]. now apply IH.
Qed.

Lemma islower_not_istitle (s : str) :
  Py.islower U s = true -> Py.istitle U s = false.
Proof.
  unfold Py.islower, Py.istitle. intros H.
  apply andb_true_iff in H as [H _]. apply negb_true_iff in H.
  destruct (Py.istitle_loop U false false s) eqn:Ht; [|reflexivity].
  now apply istitle_loop_no_upper in Ht.
Qed.

Lemma istitle_not_islower (s : str) :
  Py.istitle U s = true -> Py.islower U s = false.
Proof.
  intros H. destruct (Py.islower U s) eqn:Hl; [|reflexivity].
  apply islower_not_istitle in Hl. congruence.
Qed.

Lemma str_eqb_refl (s : str) : str_eqb s s = true.
Proof.
  induction s as [|c s IH]; simpl; [reflexivity|].
  unfold char_eqb. now rewrite N.eqb_refl.
Qed.

Lemma str_eqb_eq (a b : str) : str_eqb a b = true <-> a = b.
Proof.
  split.
  - revert b. induction a as [|x a IH]; intros [|y b]; simpl; try discriminate.
    + reflexivity.
    + intros H. apply andb_true_iff in H as [Hc Hr].
      apply N.eqb_eq in Hc. f_equal; auto.
  - intros ->. apply str_eqb_refl.
Qed.

End StrFacts.

(* ================================================================== *)
(** * Placeholders chosen for classifier records *)
(* ================================================================== *)

Section Placeholders.

Variable U : unicode_tables.

(** A record that is not skipped becomes an entity that carries the
    record's group, offsets and word, and the replacement computed from
    the group and the word. *)
Lemma resolve_Some (r : record) (e : entity) :
  resolve U r = Some e ->
  skipped U (or_else (r_word r) []) = false
  /\ e_entity e = entity_group_of r
  /\ e_start e = or_else (r_start r) 0
  /\ e_end e = or_else (r_end r) 0
  /\ e_word e = or_else (r_word r) []
  /\ e_replacement e
     = Some (replacement_for U (entity_group_of r) (or_else (r_word r) [])).
Proof.
  unfold resolve. destruct (skipped U _) eqn:Hs; [discriminate|].
  intros H. injection H as <-. simpl. repeat split; reflexivity.
Qed.

Lemma skipped_false (word : str) :
  skipped U word = false ->
  2 <= length word /\ Py.isalnum U (Py.remove_char HYPHEN word) = true.
Proof.
  unfold skipped. intros H. apply orb_false_iff in H as [Hl Ha].
  apply Nat.ltb_ge in Hl. apply negb_false_iff in Ha. auto.
Qed.

Lemma replacement_for_PER (word : str) :
  replacement_for U (ustr "PER") word = person_replacement U word.
Proof. reflexivity. Qed.

Lemma replacement_for_LOC (word : str) :
  replacement_for U (ustr "LOC") word
  = location_replacement U (ustr "LOC") word.
Proof. reflexivity. Qed.

(** On a surface of at least two characters whose first two are ASCII, the
    first shape, all-uppercase alphabetic, excludes title case. *)
Lemma upper_alpha_not_istitle (c1 c2 : char) (rest : str) :
  is_ascii c1 = true -> is_ascii c2 = true ->
  upper_alpha U (c1 :: c2 :: rest) = true ->
  Py.istitle U (c1 :: c2 :: rest) = false.
Proof.
  unfold upper_alpha, Py.isupper, Py.isalpha, Py.istitle. simpl.
  unfold Py.c_isupper, Py.c_islower, Py.c_istitle, Py.c_isalpha.
  intros -> ->.
  destruct (ascii_isupper c1), (ascii_islower c1), (ascii_isupper c2),
    (ascii_islower c2); simpl; intros H; try reflexivity;
    rewrite ?andb_false_r in H; discriminate.
Qed.

End Placeholders.

(** The surfaces named in the specification, for any Unicode tables. *)
Example person_JOHN U :
  option_map e_replacement (resolve U (mk_record "PER" 0 4 "JOHN"))
  = Some (Some (ustr "[PERSON]")).
Proof. vm_compute. reflexivity. Qed.

Example person_john U :
  option_map e_replacement (resolve U (mk_record "PER" 0 4 "john"))
  = Some (Some (ustr "[person]")).
Proof. vm_compute. reflexivity. Qed.

Example person_John U :
  option_map e_replacement (resolve U (mk_record "PER" 0 4 "John"))
  = Some (Some (ustr "[Person]")).
Proof. vm_compute. reflexivity. Qed.

Example person_Ivanov U :
  option_map e_replacement (resolve U (mk_record "PER" 0 6 "Ivanov"))
  = Some (Some (ustr "[SURNAME]")).
Proof. vm_compute. reflexivity. Qed.

(** A record with the key ['label'] and a BIO prefix is labelled PER as
    well. *)
Example label_with_prefix :
  entity_group_of {| r_entity_group := None; r_label := Some (ustr "B-PER");
                     r_start := None; r_end := None; r_word := None |}
  = ustr "PER".
Proof. reflexivity. Qed.

Example location_Newtown U :
  option_map e_replacement (resolve U (mk_record "LOC" 0 7 "Newtown"))
  = Some (Some (ustr "[LOCATION]")).
Proof. vm_compute. reflexivity. Qed.

Example location_Paris U :
  option_map e_replacement (resolve U (mk_record "LOC" 0 5 "Paris"))
  = Some (Some (ustr "[Person]")).
Proof. vm_compute. reflexivity. Qed.

Example location_PARIS U :
  option_map e_replacement (resolve U (mk_record "LOC" 0 5 "PARIS"))
  = Some (Some (ustr "[PERSON]")).
Proof. vm_compute. reflexivity. Qed.

Example location_paris U :
  option_map e_replacement (resolve U (mk_record "LOC" 0 5 "paris"))
  = Some (Some (ustr "[LOCATION]")).
Proof. vm_compute. reflexivity. Qed.

(* ================================================================== *)
(** * Ordering of the merged entities *)
(* ================================================================== *)

Lemma insert_desc_perm (x : entity) (l : list entity) :
  Permutation (x :: l) (insert_desc x l).
Proof.
  induction l as [|y l IH]; simpl; [reflexivity|].
  destruct (e_start y <=? e_start x); [reflexivity|].
  rewrite perm_swap. now apply perm_skip.
Qed.

Lemma sort_desc_perm (l : list entity) : Permutation l (sort_desc l).
Proof.
  induction l as [|x l IH]; simpl; [reflexivity|].
  rewrite <- insert_desc_perm. now apply perm_skip.
Qed.



(** Entities with equal starts keep the order they had: inserting in
    front of an entity that starts no later. *)
Lemma insert_desc_front (x y : entity) (l : list entity) :
  e_start y <= e_start x -> insert_desc x (y :: l) = x :: y :: l.
Proof. simpl. intros H. apply Nat.leb_le in H. now rewrite H. Qed.

(* ================================================================== *)
(** * The classifier is always queried *)
(* ================================================================== *)

Section Queries.

Variable U : unicode_tables.
Variable api : service.

(** [_query_model] posts exactly one request, whose payload is the
    preprocessed text. *)
Lemma query_model_posts_once (text : str) (w : list str) :
  snd (_query_model U api text w) = w ++ [_preprocess_text U text].
Proof.
  unfold _query_model, bind, post, ret, raise.
  destruct (api (_preprocess_text U text)) as [|[l|ents|]]; simpl;
    try reflexivity.
  destruct l as [|[r|sub|] l]; reflexivity.
Qed.

Lemma anonymize_posts_once (text : str) (w : list str) :
  snd (anonymize U api text w)
  = w ++ [_preprocess_text U (_normalize_text U text)].
Proof.
  unfold anonymize, bind, lift.
  pose proof (query_model_posts_once (_normalize_text U text) w) as H.
  destruct (_query_model U api (_normalize_text U text) w) as [[ner|e] w'];
    simpl in *; exact H.
Qed.

(** C4, as the code has it.  [anonymize_text] has no test on its input: it
    posts one request to the classifier for every text, the empty one
    included.  The test for empty and whitespace-only input is in the
    button handler of the page, which then shows its warning and posts
    nothing; on any other input the handler posts one request. *)
Theorem empty_input_guard_is_in_the_page (text : str) (w : list str) :
  snd (anonymize_text U api text w)
  = w ++ [_preprocess_text U (_normalize_text U text)]
  /\ (Py.strip U text = [] ->
      on_anonymize U api text w = (Return Warning, w))
  /\ (Py.strip U text <> [] ->
      snd (on_anonymize U api text w) = w ++ [_preprocess_text U text]).
Proof.
  split; [|split].
  - unfold anonymize_text, bind, ret.
    pose proof (anonymize_posts_once text w) as H.
    destruct (anonymize U api text w) as [[r|e] w']; simpl in *; exact H.
  - unfold on_anonymize. intros ->. reflexivity.
  - unfold on_anonymize. intros Hne.
    destruct (Py.strip U text) as [|c s]; [congruence|]. simpl.
    pose proof (query_model_posts_once text w) as H.
    destruct (_query_model U api text w) as [[ner|e] w']; simpl in *; exact H.
Qed.

End Queries.

(** The claim as the specification words it: no request for whitespace-only
    input.  It fails on the empty text. *)
Lemma anonymize_text_queries_on_empty_text :
  ~ (forall (U : unicode_tables) (api : service) (text : str),
       Py.strip U text = [] ->
       snd (anonymize_text U api text []) = []).
Proof.
  intros H.
  specialize (H plain_tables (answering []) [] eq_refl).
  vm_compute in H. discriminate.
Qed.

Lemma empty_input_guard_is_in_the_page_witness :
  Py.strip plain_tables (ustr "  ") = []
  /\ on_anonymize plain_tables (answering []) (ustr "  ") []
     = (Return Warning, [])
  /\ snd (anonymize_text plain_tables (answering []) (ustr "  ") [])
     = [[]].
Proof.
  split; [reflexivity|].
  destruct (empty_input_guard_is_in_the_page plain_tables (answering [])
              (ustr "  ") []) as (Hq & Hw & _).
  split; [apply Hw; reflexivity | exact Hq].
Defined.

(* ================================================================== *)
(** * The surface text of a classifier record *)
(* ================================================================== *)

Section Surface.

Variable U : unicode_tables.
Variable api : service.

Lemma resolve_all_In (ner : list element) (e : entity) :
  In e (resolve_all U ner) <->
  exists r, In (Obj r) ner /\ resolve U r = Some e.
Proof.
  induction ner as [|[r|sub|] ner IH]; simpl.
  - split; [tauto | intros (r & [] & _)].
  - destruct (resolve U r) as [e'|] eqn:Hr; simpl; rewrite ?IH.
    + split.
      * intros [<-|(r' & Hin & Hr')]; [exists r; auto | exists r'; auto].
      * intros (r' & [Heq|Hin] & Hr').
        -- injection Heq as <-. left. congruence.
        -- right. exists r'; auto.
    + split.
      * intros (r' & Hin & Hr'). exists r'; auto.
      * intros (r' & [Heq|Hin] & Hr').
        -- injection Heq as <-. congruence.
        -- exists r'; auto.
  - rewrite IH. split.
    + intros (r' & Hin & Hr'). exists r'; auto.
    + intros (r' & [Heq|Hin] & Hr'); [discriminate | exists r'; auto].
  - rewrite IH. split.
    + intros (r' & Hin & Hr'). exists r'; auto.
    + intros (r' & [Heq|Hin] & Hr'); [discriminate | exists r'; auto].
Qed.

(** C5, as the code has it.  The surface that the casing and suffix tests
    read is the ['word'] field of the classifier's record, as the
    classifier returned it for the preprocessed text that was posted; the
    placeholder is computed from the record's label and that word alone.
    Nothing is read from the original text at the record's offsets. *)
Theorem surface_is_the_classifier_word (text : str) (w w' : list str)
    (ner : list element) (e : entity) :
  _query_model U api (_normalize_text U text) w = (Return ner, w') ->
  In e (resolve_all U ner) ->
  w' = w ++ [_preprocess_text U (_normalize_text U text)]
  /\ exists r,
       In (Obj r) ner
       /\ e_word e = or_else (r_word r) []
       /\ e_replacement e
          = Some (replacement_for U (entity_group_of r)
                    (or_else (r_word r) [])).
Proof.
  intros Hq Hin. split.
  - pose proof (query_model_posts_once U api (_normalize_text U text) w) as H.
    now rewrite Hq in H.
  - apply resolve_all_In in Hin as (r & Hr & Hres).
    exists r. apply resolve_Some in Hres as (_ & _ & _ & _ & Hw & Hrep).
    auto.
Qed.

End Surface.

(** The claim as the specification words it: the surface equals the slice
    of the original text at the record's offsets.  On the text [JOHN] the
    classifier is sent [John], answers with the word [John], and that word
    is the surface. *)
Lemma surface_is_not_resliced :
  ~ (forall (U : unicode_tables) (api : service) (text : str)
            (ner : list element) (w' : list str) (e : entity),
       _query_model U api (_normalize_text U text) [] = (Return ner, w') ->
       In e (resolve_all U ner) ->
       e_word e = Py.slice (_normalize_text U text) (e_start e) (e_end e)).
Proof.
  intros H.
  specialize (H plain_tables tags_first_four (ustr "JOHN") _ _
                {| e_entity := ustr "PER"; e_start := 0; e_end := 4;
                   e_word := ustr "John";
                   e_replacement := Some (ustr "[Person]") |}
                eq_refl (or_introl eq_refl)).
  vm_compute in H. discriminate.
Qed.

(** The effect on the result: the all-uppercase name gets the title-case
    placeholder. *)
Example JOHN_gets_title_placeholder :
  anonymize_text plain_tables tags_first_four (ustr "JOHN") []
  = (Return (ustr "[Person]"), [ustr "John"]).
Proof. reflexivity. Qed.

Lemma surface_is_the_classifier_word_witness :
  let e := {| e_entity := ustr "PER"; e_start := 0; e_end := 4;
              e_word := ustr "John";
              e_replacement := Some (ustr "[Person]") |} in
  exists r,
    In (Obj r) [Obj {| r_entity_group := Some (ustr "PER");
                       r_label := None; r_start := Some 0; r_end := Some 4;
                       r_word := Some (ustr "John") |}]
    /\ e_word e = or_else (r_word r) []
    /\ e_replacement e
       = Some (replacement_for plain_tables (entity_group_of r)
                 (or_else (r_word r) [])).
Proof.
  intros e.
  exact (proj2 (surface_is_the_classifier_word plain_tables tags_first_four
                  (ustr "JOHN") [] _ _ e eq_refl (or_introl eq_refl))).
Defined.

(* ================================================================== *)
(** * The filter on classifier records and the merged entities *)
(* ================================================================== *)

Section Merge.

Variable U : unicode_tables.

(** C8, as the code has it.  The length and alphanumeric filter is the
    first test of the loop over the classifier's records: every entity
    that the loop produces passes it.  The spans of the email and phone
    detectors are appended after the loop and are not filtered: the list
    that the rewrite loop receives holds every classifier entity that
    passed and every local span, whatever its surface. *)
Theorem filter_applies_to_classifier_records (ner : list element)
    (text : str) :
  Permutation (all_entities U ner text)
    (resolve_all U ner ++ _detect_email U text ++ _detect_phone U text)
  /\ (forall e, In e (resolve_all U ner) -> skipped U (e_word e) = false)
  /\ (forall e, In e (_detect_email U text ++ _detect_phone U text) ->
      In e (all_entities U ner text)).
Proof.
  split; [|split].
  - unfold all_entities. symmetry. apply sort_desc_perm.
  - intros e He. apply resolve_all_In in He as (r & _ & Hr).
    apply resolve_Some in Hr as (Hs & _ & _ & _ & Hw & _). now rewrite Hw.
  - intros e He. unfold all_entities.
    apply (Permutation_in e (sort_desc_perm _)).
    apply in_or_app. now right.
Qed.

End Merge.

(** The claim as the specification words it: every merged span passes the
    filter.  The email span of [a@b.co] does not, and is in the merged
    list. *)
Lemma local_spans_are_not_filtered :
  ~ (forall (U : unicode_tables) (ner : list element) (text : str)
            (e : entity),
       In e (all_entities U ner text) -> skipped U (e_word e) = false).
Proof.
  intros H.
  specialize (H plain_tables [] (ustr "a@b.co")
                {| e_entity := ustr "EMAIL"; e_start := 0; e_end := 6;
                   e_word := ustr "a@b.co"; e_replacement := None |}
                (or_introl eq_refl)).
  vm_compute in H. discriminate.
Qed.

Lemma filter_applies_to_classifier_records_witness :
  let ner := [Obj (mk_record "PER" 5 10 "Smith"); Obj (mk_record "PER" 4 5 ".")] in
  let e := {| e_entity := ustr "PER"; e_start := 5; e_end := 10;
              e_word := ustr "Smith";
              e_replacement := Some (ustr "[Person]") |} in
  In e (resolve_all plain_tables ner)
  /\ skipped plain_tables (e_word e) = false.
Proof.
  intros ner e.
  assert (He : In e (resolve_all plain_tables ner)) by (left; reflexivity).
  split; [exact He|].
  exact (proj1 (proj2 (filter_applies_to_classifier_records plain_tables ner
                         (ustr "John Smith"))) e He).
Defined.

(** A local span that the filter would discard reaches the rewrite loop,
    which leaves the text as it is there: the slice is not alphanumeric. *)
Example email_is_left_in_place :
  anonymize_text plain_tables (answering []) (ustr "mail a@b.co now") []
  = (Return (ustr "mail a@b.co now"), [ustr "Mail a@b.co Now"]).
Proof. reflexivity. Qed.

(* ================================================================== *)
(** * What a match of a pattern covers *)
(* ================================================================== *)

Module ReFacts.
Import Re.

Lemma run_spec (p : char -> bool) (l : str) :
  forall (hi : option nat) (x : nat), x < run p hi l ->
    exists c, nth_error l x = Some c /\ p c = true.
Proof.
  induction l as [|c l IH]; intros hi x Hx.
  - destruct hi as [[|h]|]; simpl in Hx; lia.
  - assert (Hc : p c = true /\ x < S (run p (option_map pred hi) l)).
    { destruct hi as [[|h]|]; simpl in Hx; try lia;
        destruct (p c); try lia; auto. }
    destruct Hc as [Hc Hx']. destruct x as [|x].
    + exists c. auto.
    + simpl. apply (IH (option_map pred hi)). lia.
Qed.

Lemma backtrack_spec (k : nat -> option nat) (i lo : nat) :
  forall n e, backtrack k i lo n = Some e ->
    exists m, lo <= m <= n /\ k (i + m) = Some e.
Proof.
  induction n as [|n IH]; intros e; simpl.
  - destruct (0 <? lo) eqn:Hlo; [discriminate|].
    apply Nat.ltb_ge in Hlo.
    destruct (k (i + 0)) eqn:Hk; [|discriminate].
    intros H. exists 0. split; [lia | congruence].
  - destruct (S n <? lo) eqn:Hlo; [discriminate|].
    apply Nat.ltb_ge in Hlo.
    destruct (k (i + S n)) eqn:Hk.
    + intros H. exists (S n). split; [lia | congruence].
    + intros H. apply IH in H as (m & Hm & Hkm). exists m. split; [lia|auto].
Qed.

Lemma exec_covered (U : unicode_tables) (s : str) (r : regex) :
  forall k i e, exec U s r k i = Some e ->
    exists j, i <= j /\ k j = Some e /\ covered s r i j.
Proof.
  induction r as [| |p|p lo hi|r IH|r1 IH1 r2 IH2]; intros k i e; simpl.
  - intros H. exists i. repeat split; auto. intros x Hx. lia.
  - destruct (at_boundary U s i); [|discriminate].
    intros H. exists i. repeat split; auto. intros x Hx. lia.
  - destruct (nth_error s i) as [c|] eqn:Hc; [|discriminate].
    destruct (p c) eqn:Hp; [|discriminate].
    intros H. exists (S i). repeat split; auto.
    intros x Hx. assert (x = i) as -> by lia. exists c. auto.
  - intros H. apply backtrack_spec in H as (m & Hm & Hk).
    exists (i + m). repeat split; [lia | auto |].
    intros x Hx.
    destruct (run_spec p (skipn i s) hi (x - i)) as (c & Hc & Hp); [lia|].
    rewrite nth_error_skipn in Hc.
    replace (i + (x - i)) with x in Hc by lia. exists c. auto.
  - destruct (exec U s r k i) as [e'|] eqn:He.
    + intros H. injection H as ->. exact (IH k i e He).
    + intros H. exists i. repeat split; auto. intros x Hx. lia.
  - intros H. apply IH1 in H as (j1 & Hj1 & H & Hc1).
    apply IH2 in H as (j2 & Hj2 & H & Hc2).
    exists j2. repeat split; [lia | auto |].
    intros x Hx. destruct (Nat.lt_ge_cases x j1) as [Hlt|Hge].
    + destruct (Hc1 x) as (c & Hc & Ha); [lia|].
      exists c. simpl. rewrite Ha. auto.
    + destruct (Hc2 x) as (c & Hc & Ha); [lia|].
      exists c. simpl. rewrite Ha. rewrite orb_true_r. auto.
Qed.

Lemma match_at_covered (U : unicode_tables) (s : str) (r : regex)
    (i e : nat) :
  match_at U s r i = Some e -> i <= e /\ covered s r i e.
Proof.
  unfold match_at. intros H.
  apply exec_covered in H as (j & Hj & Hk & Hc).
  injection Hk as <-. auto.
Qed.

Lemma scan_matches (U : unicode_tables) (s : str) (r : regex) :
  forall fuel pos m, In m (scan U fuel s r pos) ->
    match_at U s r (fst m) = Some (snd m).
Proof.
  induction fuel as [|fuel IH]; intros pos m; simpl; [tauto|].
  destruct (length s <? pos); [simpl; tauto|].
  destruct (match_at U s r pos) as [e|] eqn:He.
  - intros [<-|Hin]; [exact He | exact (IH _ _ Hin)].
  - apply IH.
Qed.

(** Every character of a match that [finditer] reports is one the pattern
    accepts. *)
Lemma finditer_slice (U : unicode_tables) (s : str) (r : regex)
    (m : nat * nat) :
  In m (finditer U r s) ->
  Forall (fun c => accepts r c = true) (Py.slice s (fst m) (snd m)).
Proof.
  intros Hin. apply scan_matches in Hin.
  apply match_at_covered in Hin as [Hle Hc].
  apply Forall_forall. intros c Hc'. unfold Py.slice in Hc'.
  apply In_nth_error in Hc' as [y Hy].
  rewrite nth_error_firstn in Hy.
  destruct (y <? snd m - fst m) eqn:Hlt; [|discriminate].
  apply Nat.ltb_lt in Hlt.
  rewrite nth_error_skipn in Hy.
  destruct (Hc (fst m + y)) as (c' & Hc1 & Ha); [lia|].
  congruence.
Qed.

End ReFacts.

(* ================================================================== *)
(** * The phone detector *)
(* ================================================================== *)

Section Phone.

Variable U : unicode_tables.

Lemma one_of_In (cs : str) (c : char) :
  Re.one_of cs c = true -> In c cs.
Proof.
  unfold Re.one_of, Py.contains. intros H.
  apply existsb_exists in H as (x & Hin & Hx).
  apply N.eqb_eq in Hx. now subst.
Qed.

Lemma accepts_cat (rs : list Re.regex) (c : char) :
  Re.accepts (Re.cat rs) c
  = existsb (fun r => Re.accepts r c) rs.
Proof. induction rs as [|r rs IH]; simpl; [reflexivity | now rewrite IH]. Qed.

Lemma accepts_digits (lo hi : nat) (c : char) :
  Re.accepts (digits U lo hi) c = true -> phone_char U c.
Proof. intros H. left. exact H. Qed.

Lemma accepts_sep (c : char) :
  Re.accepts (sep) c = true -> phone_char U c.
Proof.
  intros H. apply (one_of_In (ustr "-.")) in H.
  right. right. simpl in *. tauto.
Qed.

Lemma accepts_opt_char (x c : char) :
  In x [PLUS; LPAREN; RPAREN] ->
  Re.accepts (Re.opt (char_eqb x)) c = true -> phone_char U c.
Proof.
  intros Hx H. apply N.eqb_eq in H. subst c.
  right. simpl in *. intuition congruence.
Qed.

Lemma accepts_blocks (rs : list Re.regex) (c : char) :
  Forall (fun r => Re.accepts r c = true -> phone_char U c) rs ->
  Re.accepts (Re.cat rs) c = true -> phone_char U c.
Proof.
  intros Hrs H. rewrite accepts_cat in H.
  apply existsb_exists in H as (r & Hr & Ha).
  rewrite Forall_forall in Hrs. exact (Hrs r Hr Ha).
Qed.

Lemma accepts_boundary (c : char) :
  Re.accepts Re.Boundary c = true -> phone_char U c.
Proof. discriminate. Qed.

Lemma accepts_country_code (c : char) :
  Re.accepts (country_code U) c = true -> phone_char U c.
Proof.
  unfold country_code. change (Re.accepts (Re.Optional ?r) c)
    with (Re.accepts r c).
  apply accepts_blocks.
  apply Forall_cons; [apply accepts_opt_char; simpl; tauto|].
  apply Forall_cons; [apply accepts_digits|].
  apply Forall_cons; [apply accepts_sep|].
  apply Forall_nil.
Qed.

Lemma accepts_grouped (lo hi : nat) (c : char) :
  Re.accepts (grouped U lo hi) c = true -> phone_char U c.
Proof.
  apply accepts_blocks.
  repeat (apply Forall_cons;
          [ first [ apply accepts_boundary | apply accepts_country_code
                  | apply accepts_digits | apply accepts_sep ] |]).
  apply Forall_nil.
Qed.

(** The patterns consume digits, plus signs and the four separators. *)
Lemma phone_pattern_accepts (pattern : Re.regex) (c : char) :
  In pattern (phone_patterns U) ->
  Re.accepts pattern c = true -> phone_char U c.
Proof.
  intros Hin. unfold phone_patterns in Hin. cbn [In] in Hin.
  destruct Hin as [<-|[<-|[<-|[<-|[<-|[]]]]]];
    try apply accepts_grouped.
  apply accepts_blocks.
  repeat (apply Forall_cons;
          [ first [ apply accepts_boundary | apply accepts_country_code
                  | apply accepts_digits | apply accepts_sep
                  | apply accepts_opt_char; simpl; tauto ] |]).
  apply Forall_nil.
Qed.

Lemma remove_char_Forall (P : char -> Prop) (x : char) (s : str) :
  Forall (fun c => c = x \/ P c) s -> Forall P (Py.remove_char x s).
Proof.
  unfold Py.remove_char. induction 1 as [|c s Hc Hs IH]; simpl.
  - constructor.
  - destruct (char_eqb c x) eqn:Hcx; simpl; [exact IH|].
    constructor; [|exact IH].
    destruct Hc as [->|Hc]; [|exact Hc].
    unfold char_eqb in Hcx. now rewrite N.eqb_refl in Hcx.
Qed.

(** What is left of a match after the separators are stripped: digits and
    plus signs. *)
Lemma stripped_match (pattern : Re.regex) (text : str) (m : nat * nat) :
  In pattern (phone_patterns U) ->
  In m (Re.finditer U pattern text) ->
  Forall (fun c => Re.is_digit U c = true \/ c = PLUS)
    (strip_separators (Py.slice text (fst m) (snd m))).
Proof.
  intros Hp Hm. apply ReFacts.finditer_slice in Hm.
  unfold strip_separators.
  do 4 apply remove_char_Forall.
  eapply Forall_impl; [|exact Hm]. intros c Hc.
  destruct (phone_pattern_accepts pattern c Hp Hc) as [H|[H|H]].
  - do 4 right. now left.
  - do 4 right. now right.
  - simpl in H. destruct H as [H|[H|[H|[H|[]]]]]; subst c; tauto.
Qed.

Lemma digits_and_pluses (s : str) :
  Forall (fun c => Re.is_digit U c = true \/ c = PLUS) s ->
  length s = digit_count U s + plus_count s.
Proof.
  unfold digit_count, plus_count.
  induction 1 as [|c s Hc Hs IH]; [reflexivity|].
  cbn [filter]. destruct Hc as [Hc| ->].
  - rewrite Hc. destruct (char_eqb PLUS c) eqn:Hp.
    + apply N.eqb_eq in Hp. subst c. discriminate.
    + cbn [length]. lia.
  - change (Re.is_digit U PLUS) with false.
    change (char_eqb PLUS PLUS) with true. cbn [length]. lia.
Qed.

Lemma detect_phone_In (text : str) (e : entity) :
  In e (_detect_phone U text) <->
  exists pattern m,
    In pattern (phone_patterns U)
    /\ In m (Re.finditer U pattern text)
    /\ phone_accepted text m = true
    /\ e = phone_entity text m.
Proof.
  unfold _detect_phone. rewrite in_flat_map. split.
  - intros (pattern & Hp & He). apply in_map_iff in He as (m & <- & Hm).
    apply filter_In in Hm as [Hm Ha]. exists pattern, m. auto.
  - intros (pattern & m & Hp & Hm & Ha & ->). exists pattern.
    split; [exact Hp|]. apply in_map. apply filter_In. auto.
Qed.

(** C6, as the code has it.  A match of one of the patterns is kept as a
    PHONE span exactly when what is left of it after stripping [-], [.],
    [(] and [)] has at least 6 characters; these are decimal digits and
    the plus signs of the match, which are not stripped.  The text
    [Call +1-555-123-4567 now] yields a PHONE span with 11 digits, the
    text [12] yields none. *)
Theorem phone_kept_by_stripped_length (text : str) (pattern : Re.regex)
    (m : nat * nat) :
  In pattern (phone_patterns U) ->
  In m (Re.finditer U pattern text) ->
  let phone := strip_separators (Py.slice text (fst m) (snd m)) in
  Forall (fun c => Re.is_digit U c = true \/ c = PLUS) phone
  /\ (In (phone_entity text m) (_detect_phone U text)
      <-> 6 <= digit_count U phone + plus_count phone)
  /\ (exists e, In e (_detect_phone U (ustr "Call +1-555-123-4567 now"))
                /\ e_entity e = ustr "PHONE"
                /\ digit_count U (strip_separators (e_word e)) = 11)
  /\ _detect_phone U (ustr "12") = [].
Proof.
  intros Hp Hm phone. subst phone.
  pose proof (stripped_match pattern text m Hp Hm) as Hf.
  split; [exact Hf|]. split; [|split].
  - rewrite <- (digits_and_pluses _ Hf). rewrite detect_phone_In. split.
    + intros (pattern' & m' & _ & _ & Ha & He).
      assert (m' = m) as ->.
      { destruct m, m'. unfold phone_entity in He. simpl in He.
        injection He as -> ->. reflexivity. }
      unfold phone_accepted in Ha. now apply Nat.leb_le in Ha.
    + intros Hlen. exists pattern, m. repeat split; auto.
      unfold phone_accepted. now apply Nat.leb_le.
  - exists (phone_entity (ustr "Call +1-555-123-4567 now") (6, 20)).
    split; [|split].
    + assert (H : hd_error (_detect_phone U (ustr "Call +1-555-123-4567 now"))
                  = Some (phone_entity (ustr "Call +1-555-123-4567 now")
                            (6, 20)))
        by (vm_compute; reflexivity).
      destruct (_detect_phone U (ustr "Call +1-555-123-4567 now"));
        [discriminate|]. injection H as ->. now left.
    + reflexivity.
    + vm_compute. reflexivity.
  - vm_compute. reflexivity.
Qed.

End Phone.

(** The claim as the specification words it: kept exactly when at least 6
    digits are left.  In [x+12345] the third pattern matches [+12345]: 5
    digits are left, and the span is kept. *)
Lemma phone_kept_with_five_digits :
  ~ (forall (U : unicode_tables) (text : str) (pattern : Re.regex)
            (m : nat * nat),
       In pattern (phone_patterns U) ->
       In m (Re.finditer U pattern text) ->
       (In (phone_entity text m) (_detect_phone U text)
        <-> 6 <= digit_count U
                   (strip_separators (Py.slice text (fst m) (snd m))))).
Proof.
  intros H.
  specialize (H plain_tables (ustr "x+12345") (grouped plain_tables 1 4)
                (1, 7)).
  destruct H as [H _].
  - simpl. auto.
  - left. reflexivity.
  - assert (Hin : In (phone_entity (ustr "x+12345") (1, 7))
                    (_detect_phone plain_tables (ustr "x+12345")))
      by (left; reflexivity).
    apply H in Hin. vm_compute in Hin. lia.
Qed.

Lemma phone_kept_by_stripped_length_witness :
  let text := ustr "x+12345" in
  In (grouped plain_tables 1 4) (phone_patterns plain_tables)
  /\ In (1, 7) (Re.finditer plain_tables (grouped plain_tables 1 4) text)
  /\ (In (phone_entity text (1, 7)) (_detect_phone plain_tables text)
      <-> 6 <= digit_count plain_tables (ustr "+12345")
               + plus_count (ustr "+12345")).
Proof.
  intros text.
  assert (Hp : In (grouped plain_tables 1 4) (phone_patterns plain_tables))
    by (simpl; auto).
  assert (Hm : In (1, 7)
                 (Re.finditer plain_tables (grouped plain_tables 1 4) text))
    by (left; reflexivity).
  split; [exact Hp|]. split; [exact Hm|].
  exact (proj1 (proj2 (phone_kept_by_stripped_length plain_tables text
                         (grouped plain_tables 1 4) (1, 7) Hp Hm))).
Defined.

(* ================================================================== *)
(** * One turn of the rewrite loop *)
(* ================================================================== *)

Section RewriteStep.

Variable U : unicode_tables.

Lemma expand_start_spec (w : str) :
  forall start s, expand_start U w start = Return s ->
    s <= start /\ start <= length w
    /\ (forall i, s <= i < start -> alnum_at U w i)
    /\ (s = 0 \/ not_alnum_at U w (s - 1)).
Proof.
  induction start as [|before IH]; intros s; simpl.
  - intros H. injection H as <-. repeat split; try lia.
  - unfold getitem. destruct (nth_error w before) as [c|] eqn:Hc;
      simpl; [|discriminate].
    assert (Hlt : before < length w)
      by (apply nth_error_Some; congruence).
    destruct (Py.c_isalnum U c) eqn:Ha.
    + intros H. apply IH in H as (H1 & H2 & H3 & H4).
      repeat split; try lia; auto.
      intros i Hi. destruct (Nat.eq_dec i before) as [->|Hne].
      * exists c. auto.
      * apply H3. lia.
    + intros H. injection H as <-. repeat split; try lia.
      right. simpl. rewrite Nat.sub_0_r. exists c. auto.
Qed.

Lemma expand_start_total (w : str) :
  forall start, start <= length w ->
    exists s, expand_start U w start = Return s.
Proof.
  induction start as [|before IH]; intros Hle; simpl.
  - now exists 0.
  - unfold getitem. destruct (nth_error w before) as [c|] eqn:Hc; simpl.
    + destruct (Py.c_isalnum U c); [apply IH; lia | now eexists].
    + apply nth_error_None in Hc. lia.
Qed.

Lemma expand_start_raises (w : str) (start : nat) :
  length w < start -> expand_start U w start = Raise IndexError.
Proof.
  destruct start as [|before]; [lia|]. intros H. simpl. unfold getitem.
  destruct (nth_error w before) eqn:Hc; [|reflexivity].
  assert (before < length w) by (apply nth_error_Some; congruence). lia.
Qed.

Lemma alnum_run_spec (l : str) :
  alnum_run U l <= length l
  /\ (forall x, x < alnum_run U l -> alnum_at U l x)
  /\ (alnum_run U l = length l \/ not_alnum_at U l (alnum_run U l)).
Proof.
  induction l as [|c l (IH1 & IH2 & IH3)]; simpl.
  - repeat split; auto. intros x Hx. lia.
  - destruct (Py.c_isalnum U c) eqn:Ha.
    + repeat split; [lia | |].
      * intros [|x] Hx; [exists c; auto|]. apply IH2. lia.
      * destruct IH3 as [->|IH3]; [now left | now right].
    + repeat split; [lia | intros x Hx; lia |].
      right. exists c. auto.
Qed.

Lemma expand_end_spec (w : str) (end_ : nat) :
  end_ <= length w ->
  end_ <= expand_end U w end_ <= length w
  /\ (forall i, end_ <= i < expand_end U w end_ -> alnum_at U w i)
  /\ (expand_end U w end_ = length w
      \/ not_alnum_at U w (expand_end U w end_)).
Proof.
  intros Hle. unfold expand_end.
  destruct (alnum_run_spec (skipn end_ w)) as (H1 & H2 & H3).
  rewrite length_skipn in H1, H3.
  repeat split; try lia.
  - intros i Hi. destruct (H2 (i - end_)) as (c & Hc & Ha); [lia|].
    rewrite nth_error_skipn in Hc.
    replace (end_ + (i - end_)) with i in Hc by lia. exists c. auto.
  - destruct H3 as [H3|(c & Hc & Ha)]; [left; lia|].
    right. rewrite nth_error_skipn in Hc. exists c. auto.
Qed.

Lemma expand_end_beyond (w : str) (end_ : nat) :
  length w <= end_ -> expand_end U w end_ = end_.
Proof.
  intros H. unfold expand_end. rewrite skipn_all2 by lia. simpl. lia.
Qed.

Lemma slice_length (w : str) (s en : nat) :
  en <= length w -> length (Py.slice w s en) = en - s.
Proof.
  intros H. unfold Py.slice. rewrite length_firstn, length_skipn. lia.
Qed.

Lemma slice_nth (w : str) (s en x : nat) :
  x < en - s -> nth_error (Py.slice w s en) x = nth_error w (s + x).
Proof.
  intros H. unfold Py.slice. rewrite nth_error_firstn.
  apply Nat.ltb_lt in H. rewrite H. apply nth_error_skipn.
Qed.

(** [isalnum] of a slice, offset by offset. *)
Lemma isalnum_slice (w : str) (s en : nat) :
  en <= length w ->
  Py.isalnum U (Py.slice w s en) = true
  <-> s < en /\ forall i, s <= i < en -> alnum_at U w i.
Proof.
  intros Hen. unfold Py.isalnum. rewrite andb_true_iff, forallb_forall.
  pose proof (slice_length w s en Hen) as Hlen. split.
  - intros [Hne Hall]. split.
    + destruct (Py.slice w s en); [discriminate|]. simpl in Hlen. lia.
    + intros i Hi.
      destruct (nth_error (Py.slice w s en) (i - s)) as [c|] eqn:Hc.
      * exists c. split; [|apply Hall; eapply nth_error_In; eauto].
        rewrite slice_nth in Hc by lia.
        now replace (s + (i - s)) with i in Hc by lia.
      * apply nth_error_None in Hc. lia.
  - intros [Hlt Hall]. split.
    + destruct (Py.slice w s en); [simpl in Hlen; lia | reflexivity].
    + intros c Hc. apply In_nth_error in Hc as [x Hx].
      assert (x < en - s).
      { rewrite <- Hlen. apply nth_error_Some. congruence. }
      rewrite slice_nth in Hx by lia.
      destruct (Hall (s + x)) as (c' & Hc' & Ha); [lia|]. congruence.
Qed.

(** What a turn that returns has done. *)
Lemma rewrite_step_spec (w : str) (e : entity) (w' : str)
    (done : option edit) :
  rewrite_step U w e = Return (w', done) ->
  exists s,
    let en := expand_end U w (e_end e) in
    expand_start U w (e_start e) = Return s
    /\ e_end e <= length w
    /\ ((done = Some {| ed_entity := e; ed_start := s; ed_end := en |}
         /\ w' = Py.slice_to w s ++ replacement_of e ++ Py.slice_from w en
         /\ Py.isalnum U (Py.slice w s en) = true
         /\ 1 < en - s)
        \/ (done = None /\ w' = w
            /\ ~ (Py.isalnum U (Py.slice w s en) = true /\ 1 < en - s))).
Proof.
  unfold rewrite_step.
  destruct (expand_start U w (e_start e)) as [s|x] eqn:Hs; simpl;
    [|discriminate].
  pose proof (expand_start_spec w _ _ Hs) as (Hs1 & Hs2 & Hs3 & Hs4).
  assert (Hleft : edge_or_not_alnum U (s =? 0) w (s - 1) = Return true).
  { unfold edge_or_not_alnum. destruct Hs4 as [->|(c & Hc & Ha)].
    - reflexivity.
    - destruct (s =? 0); [reflexivity|]. unfold getitem.
      rewrite Hc. simpl. now rewrite Ha. }
  rewrite Hleft. simpl.
  destruct (Nat.le_gt_cases (e_end e) (length w)) as [Hle|Hgt].
  - pose proof (expand_end_spec w (e_end e) Hle) as (He1 & He2 & He3).
    set (en := expand_end U w (e_end e)) in *.
    assert (Hright :
              edge_or_not_alnum U (en =? length w) w en = Return true).
    { unfold edge_or_not_alnum. destruct He3 as [->|(c & Hc & Ha)].
      - now rewrite Nat.eqb_refl.
      - destruct (en =? length w); [reflexivity|]. unfold getitem.
        rewrite Hc. simpl. now rewrite Ha. }
    rewrite Hright. simpl. rewrite (slice_length w s en) by lia.
    intros H. exists s. split; [reflexivity|]. split; [exact Hle|].
    destruct (Py.isalnum U (Py.slice w s en)) eqn:Ha; simpl in H.
    + destruct (1 <? en - s) eqn:Hl; injection H as <- <-.
      * left. apply Nat.ltb_lt in Hl. auto.
      * right. apply Nat.ltb_ge in Hl. repeat split; auto. lia.
    + injection H as <- <-. right. repeat split; auto.
      intros [? _]. discriminate.
  - rewrite (expand_end_beyond w (e_end e)) by lia.
    unfold edge_or_not_alnum.
    assert (Hneq : (e_end e =? length w) = false)
      by (apply Nat.eqb_neq; lia).
    rewrite Hneq. unfold getitem.
    assert (Hnone : nth_error w (e_end e) = None)
      by (apply nth_error_None; lia).
    rewrite Hnone. simpl. discriminate.
Qed.

(** A turn returns when both offsets of the span are within the working
    text. *)
Lemma rewrite_step_returns (w : str) (e : entity) :
  e_start e <= length w -> e_end e <= length w ->
  exists w' done, rewrite_step U w e = Return (w', done).
Proof.
  intros Hs He. unfold rewrite_step.
  destruct (expand_start_total w (e_start e) Hs) as [s Hst].
  rewrite Hst. simpl.
  pose proof (expand_start_spec w _ _ Hst) as (_ & _ & _ & Hs4).
  assert (Hleft : edge_or_not_alnum U (s =? 0) w (s - 1) = Return true).
  { unfold edge_or_not_alnum. destruct Hs4 as [->|(c & Hc & Ha)].
    - reflexivity.
    - destruct (s =? 0); [reflexivity|]. unfold getitem.
      rewrite Hc. simpl. now rewrite Ha. }
  rewrite Hleft. simpl.
  pose proof (expand_end_spec w (e_end e) He) as (_ & _ & He3).
  set (en := expand_end U w (e_end e)) in *.
  assert (Hright : edge_or_not_alnum U (en =? length w) w en = Return true).
  { unfold edge_or_not_alnum. destruct He3 as [->|(c & Hc & Ha)].
    - now rewrite Nat.eqb_refl.
    - destruct (en =? length w); [reflexivity|]. unfold getitem.
      rewrite Hc. simpl. now rewrite Ha. }
  rewrite Hright. simpl.
  destruct (Py.isalnum U (Py.slice w s en) && _); eauto.
Qed.

Lemma expand_start_exn (w : str) :
  forall start x, expand_start U w start = Raise x -> x = IndexError.
Proof.
  induction start as [|before IH]; intros x; simpl; [discriminate|].
  unfold getitem. destruct (nth_error w before) as [c|]; simpl.
  - destruct (Py.c_isalnum U c); [apply IH | discriminate].
  - congruence.
Qed.

Lemma edge_or_not_alnum_exn (at_edge : bool) (w : str) (j : nat)
    (x : exn) :
  edge_or_not_alnum U at_edge w j = Raise x -> x = IndexError.
Proof.
  unfold edge_or_not_alnum, getitem. destruct at_edge; [discriminate|].
  destruct (nth_error w j); simpl; [discriminate | congruence].
Qed.

Lemma rewrite_step_exn (w : str) (e : entity) (x : exn) :
  rewrite_step U w e = Raise x -> x = IndexError.
Proof.
  unfold rewrite_step.
  destruct (expand_start U w (e_start e)) as [s|y] eqn:Hs; simpl.
  - destruct (edge_or_not_alnum U (s =? 0) w (s - 1)) as [l|y] eqn:Hl;
      simpl.
    + destruct l; simpl.
      * destruct (edge_or_not_alnum U _ w (expand_end U w (e_end e)))
          as [r|y] eqn:Hright; simpl.
        -- destruct r; [|discriminate].
           destruct (Py.isalnum U _ && _); discriminate.
        -- intros H. injection H as <-.
           exact (edge_or_not_alnum_exn _ _ _ _ Hright).
      * discriminate.
    + intros H. injection H as <-. exact (edge_or_not_alnum_exn _ _ _ _ Hl).
  - intros H. injection H as <-. exact (expand_start_exn _ _ _ Hs).
Qed.


End RewriteStep.

(** The classifier answering with the span [mith] of [John Smith]: the
    replacement takes the whole of [Smith]. *)
Example Smith_is_replaced_whole :
  anonymize_text plain_tables (answering [mk_record "PER" 6 10 "mith"])
    (ustr "John Smith") []
  = (Return (ustr "John [person]"), [ustr "John Smith"]).
Proof. reflexivity. Qed.

(* ================================================================== *)
(** * Preprocessing and the length of the text *)
(* ================================================================== *)

Section PreprocessLength.

Variable U : unicode_tables.

Lemma space_count_le (l : str) : space_count U l <= length l.
Proof. apply filter_length_le. Qed.

Lemma join_length (c : char) (pieces : list str) :
  length (Py.join [c] pieces) = total pieces + (length pieces - 1).
Proof.
  unfold total. induction pieces as [|p [|q ps] IH].
  - reflexivity.
  - simpl. lia.
  - change (Py.join [c] (p :: q :: ps))
      with (p ++ [c] ++ Py.join [c] (q :: ps)).
    rewrite !length_app, IH. simpl. lia.
Qed.

Lemma join_cons (sep p q : str) (ps : list str) :
  Py.join sep (p :: q :: ps) = p ++ sep ++ Py.join sep (q :: ps).
Proof. reflexivity. Qed.

Lemma split_on_cons (sep : char) (s : str) :
  exists p ps, Py.split_on sep s = p :: ps.
Proof.
  destruct s as [|c s]; simpl; [eauto|].
  destruct (char_eqb c sep); [eauto|].
  destruct (Py.split_on sep s); eauto.
Qed.

Lemma join_split_on (sep : char) (s : str) :
  Py.join [sep] (Py.split_on sep s) = s.
Proof.
  induction s as [|c s IH]; [reflexivity|]. simpl.
  destruct (split_on_cons sep s) as (p & ps & Hsp). rewrite Hsp in *.
  destruct (char_eqb c sep) eqn:Hc.
  - apply N.eqb_eq in Hc. subst c. rewrite join_cons, IH. reflexivity.
  - destruct ps as [|q ps].
    + simpl in *. now subst.
    + rewrite join_cons in *. rewrite <- IH. reflexivity.
Qed.

(** The words of a line hold its characters that are not whitespace. *)
Lemma split_ws_total (l : str) :
  forall cur,
    total (Py.split_ws U cur l) + space_count U l = length cur + length l.
Proof.
  unfold total, space_count.
  induction l as [|c l IH]; intros cur; simpl.
  - destruct cur; simpl; [reflexivity|].
    rewrite length_app, length_rev. simpl. lia.
  - destruct (Py.c_isspace U c) eqn:Hc.
    + specialize (IH []). destruct cur as [|x cur]; simpl in *; [lia|].
      rewrite length_app, length_rev. simpl. lia.
    + specialize (IH (c :: cur)). simpl in IH. lia.
Qed.

(** There is at most one word more than there are whitespace
    characters. *)
Lemma split_ws_count (l : str) :
  forall cur, length (Py.split_ws U cur l) <= space_count U l + 1.
Proof.
  unfold space_count.
  induction l as [|c l IH]; intros cur; simpl.
  - destruct cur; simpl; lia.
  - destruct (Py.c_isspace U c) eqn:Hc.
    + specialize (IH []). destruct cur; simpl; lia.
    + apply IH.
Qed.

Lemma split_ws_count_leading (l : str) :
  starts_with_space U l = true ->
  length (Py.split_ws U [] l) <= space_count U l.
Proof.
  destruct l as [|c l]; simpl; [discriminate|]. intros Hc.
  unfold space_count. simpl. rewrite Hc. simpl.
  pose proof (split_ws_count l []) as H. unfold space_count in H. lia.
Qed.

Lemma split_ws_count_trailing (l : str) :
  ends_with_space U l = true ->
  forall cur, length (Py.split_ws U cur l) <= space_count U l.
Proof.
  unfold space_count.
  induction l as [|c l IH]; [discriminate|]. intros He cur.
  destruct l as [|d l].
  - simpl in *. rewrite He. destruct cur; simpl; lia.
  - assert (He' : ends_with_space U (d :: l) = true) by exact He.
    specialize (IH He').
    change (Py.split_ws U cur (c :: d :: l))
      with (if Py.c_isspace U c
            then match cur with
                 | [] => Py.split_ws U [] (d :: l)
                 | _ => rev cur :: Py.split_ws U [] (d :: l)
                 end
            else Py.split_ws U (c :: cur) (d :: l)).
    change (filter (Py.c_isspace U) (c :: d :: l))
      with (if Py.c_isspace U c
            then c :: filter (Py.c_isspace U) (d :: l)
            else filter (Py.c_isspace U) (d :: l)).
    destruct (Py.c_isspace U c).
    + specialize (IH []). destruct cur; cbn [length]; lia.
    + apply IH.
Qed.

Lemma split_ws_count_consecutive (l : str) :
  consecutive_spaces U l = true ->
  forall cur, length (Py.split_ws U cur l) <= space_count U l.
Proof.
  unfold space_count.
  induction l as [|c l IH]; [discriminate|]. intros Hc cur.
  simpl in Hc. apply orb_true_iff in Hc as [Hc|Hc].
  - apply andb_true_iff in Hc as [Hc Hl].
    pose proof (split_ws_count_leading l Hl) as H.
    unfold space_count in H. simpl. rewrite Hc.
    destruct cur; simpl; lia.
  - specialize (IH Hc). simpl. destruct (Py.c_isspace U c).
    + specialize (IH []). destruct cur; simpl; lia.
    + apply IH.
Qed.

Lemma extra_whitespace_has_space (l : str) :
  extra_whitespace U l = true -> 1 <= space_count U l.
Proof.
  unfold extra_whitespace, space_count. intros H.
  assert (Hex : existsb (Py.c_isspace U) l = true).
  { apply orb_true_iff in H as [H|H];
      [apply orb_true_iff in H as [H|H]|].
    - destruct l; simpl in *; [discriminate|]. now rewrite H.
    - induction l as [|c l IH]; [discriminate|].
      destruct l as [|d l]; simpl in *.
      + now rewrite H.
      + rewrite (IH H). apply orb_true_r.
    - induction l as [|c l IH]; [discriminate|]. simpl in *.
      apply orb_true_iff in H as [H|H].
      + apply andb_true_iff in H as [H _]. now rewrite H.
      + rewrite (IH H). apply orb_true_r. }
  apply existsb_exists in Hex as (c & Hin & Hc).
  assert (In c (filter (Py.c_isspace U) l)) by (apply filter_In; auto).
  destruct (filter (Py.c_isspace U) l); [contradiction | simpl; lia].
Qed.

Lemma split_count_extra (line : str) :
  extra_whitespace U line = true ->
  length (Py.split U line) <= space_count U line.
Proof.
  unfold extra_whitespace, Py.split. intros H.
  apply orb_true_iff in H as [H|H]; [apply orb_true_iff in H as [H|H]|].
  - now apply split_ws_count_leading.
  - now apply split_ws_count_trailing.
  - now apply split_ws_count_consecutive.
Qed.

Lemma total_map_ext (f : str -> str) (pieces : list str) :
  (forall p, In p pieces -> length (f p) = length p) ->
  total (List.map f pieces) = total pieces.
Proof.
  unfold total. induction pieces as [|p ps IH]; intros H; simpl;
    [reflexivity|].
  rewrite (H p) by now left. rewrite IH; [reflexivity|].
  intros q Hq. apply H. now right.
Qed.

(** A line whose words keep their lengths does not grow, and shrinks when
    it has whitespace to drop. *)
Lemma preprocess_line_length (line : str) :
  (forall word, In word (Py.split U line) ->
     length (preprocess_word U word) = length word) ->
  length (preprocess_line U line) <= length line
  /\ (extra_whitespace U line = true ->
      length (preprocess_line U line) < length line).
Proof.
  intros Hw. unfold preprocess_line.
  rewrite join_length, length_map, (total_map_ext _ _ Hw).
  pose proof (split_ws_total line []) as Ht.
  pose proof (split_ws_count line []) as Hc.
  fold (Py.split U line) in Ht, Hc. simpl in Ht. split; [lia|].
  intros He. pose proof (split_count_extra line He) as Hn.
  pose proof (extra_whitespace_has_space line He) as Hs. lia.
Qed.

Lemma total_le_lt (f : str -> str) (lines : list str) :
  (forall l, In l lines -> length (f l) <= length l) ->
  total (List.map f lines) <= total lines
  /\ ((exists l, In l lines /\ length (f l) < length l) ->
      total (List.map f lines) < total lines).
Proof.
  unfold total. induction lines as [|l ls IH]; intros H; simpl.
  - split; [lia | intros (l & [] & _)].
  - assert (Hl : length (f l) <= length l) by (apply H; now left).
    destruct IH as [IH1 IH2]; [intros x Hx; apply H; now right|].
    split; [lia|]. intros (x & [<-|Hx] & Hlt); [lia|].
    assert (list_sum (List.map (@length char) (List.map f ls))
            < list_sum (List.map (@length char) ls))
      by (apply IH2; eauto).
    lia.
Qed.

(** The preprocessed text is shorter than a text that has a line with
    whitespace to drop, when the case conversions keep the length of
    every word. *)
Lemma preprocess_text_shorter (text : str) :
  (forall line word,
     In line (Py.split_on NEWLINE text) -> In word (Py.split U line) ->
     length (preprocess_word U word) = length word) ->
  (exists line, In line (Py.split_on NEWLINE text)
                /\ extra_whitespace U line = true) ->
  length (_preprocess_text U text) < length text.
Proof.
  intros Hw (line & Hin & He). unfold _preprocess_text.
  rewrite <- (join_split_on NEWLINE text) at 2.
  rewrite !join_length, length_map.
  assert (Hle : forall l, In l (Py.split_on NEWLINE text) ->
                  length (preprocess_line U l) <= length l).
  { intros l Hl. apply preprocess_line_length. intros w. now apply Hw. }
  destruct (total_le_lt (preprocess_line U) _ Hle) as [_ Hlt].
  assert (total (List.map (preprocess_line U) (Py.split_on NEWLINE text))
          < total (Py.split_on NEWLINE text)).
  { apply Hlt. exists line. split; [exact Hin|].
    apply preprocess_line_length; [|exact He].
    intros w. now apply Hw. }
  lia.
Qed.

End PreprocessLength.

(** ** Text without characters above U+007F *)

Section AsciiWords.

Variable U : unicode_tables.

Lemma lower_from_length (s rest : str) :
  ascii_only rest ->
  forall i, length (Py.lower_from U s i rest) = length rest.
Proof.
  induction 1 as [|c rest Hc Hrest IH]; intros i; simpl; [reflexivity|].
  unfold Py.lower_char. rewrite Hc. simpl. now rewrite IH.
Qed.

Lemma title_from_length (s rest : str) :
  ascii_only rest ->
  forall i cased, length (Py.title_from U s i cased rest) = length rest.
Proof.
  induction 1 as [|c rest Hc Hrest IH]; intros i cased; simpl;
    [reflexivity|].
  unfold Py.lower_char, Py.title_char. rewrite Hc, length_app, IH.
  destruct cased; reflexivity.
Qed.

Lemma capitalize_length (s : str) :
  ascii_only s -> length (Py.capitalize U s) = length s.
Proof.
  intros H. destruct H as [|c rest Hc Hrest]; simpl; [reflexivity|].
  unfold Py.title_char. rewrite Hc. simpl.
  now rewrite lower_from_length.
Qed.

Lemma preprocess_word_length (word : str) :
  ascii_only word -> length (preprocess_word U word) = length word.
Proof.
  intros H. unfold preprocess_word.
  destruct (Py.isupper U word && (2 <? length word)).
  - destruct (Py.isalpha U word); [|reflexivity].
    now apply title_from_length.
  - destruct (Py.islower U word && (2 <? length word)); [|reflexivity].
    destruct (Py.isalpha U word && _); [|reflexivity].
    now apply capitalize_length.
Qed.

Lemma split_ws_chars (l : str) :
  forall cur word, In word (Py.split_ws U cur l) ->
    forall c, In c word -> In c cur \/ In c l.
Proof.
  induction l as [|x l IH]; intros cur word; simpl.
  - destruct cur as [|y cur]; simpl; [tauto|]. intros [<-|[]] c Hc.
    left. change (In c (y :: cur)). apply in_rev. exact Hc.
  - destruct (Py.c_isspace U x).
    + destruct cur as [|y cur].
      * intros Hin c Hc. destruct (IH _ _ Hin c Hc) as [[]|H]. auto.
      * intros [<-|Hin] c Hc.
        -- left. change (In c (y :: cur)). apply in_rev. exact Hc.
        -- destruct (IH _ _ Hin c Hc) as [[]|H]. auto.
    + intros Hin c Hc. destruct (IH _ _ Hin c Hc) as [[<-|H]|H]; auto.
Qed.

Lemma split_on_chars (sep : char) (s : str) :
  forall line, In line (Py.split_on sep s) ->
    forall c, In c line -> In c s.
Proof.
  induction s as [|x s IH]; intros line; simpl.
  - intros [<-|[]] c [].
  - destruct (char_eqb x sep).
    + intros [<-|Hin] c Hc; [destruct Hc|]. right. eauto.
    + destruct (Py.split_on sep s) as [|p ps].
      * intros [<-|[]] c [<-|[]]. now left.
      * intros [<-|Hin] c Hc.
        -- destruct Hc as [<-|Hc]; [now left|].
           right. apply (IH p); [now left | exact Hc].
        -- right. apply (IH line); [now right | exact Hc].
Qed.

Lemma ascii_words (text line word : str) :
  ascii_only text ->
  In line (Py.split_on NEWLINE text) -> In word (Py.split U line) ->
  ascii_only word.
Proof.
  intros Ht Hl Hw. apply Forall_forall. intros c Hc.
  unfold ascii_only in Ht. rewrite Forall_forall in Ht. apply Ht.
  apply (split_on_chars NEWLINE text line Hl).
  destruct (split_ws_chars line [] word Hw c Hc) as [[]|H]. exact H.
Qed.

End AsciiWords.

(** C10, as the code has it.  Each line is split on whitespace and its
    words are joined again with single spaces.  When the case conversion
    of the words keeps their lengths, as it does for every text without a
    character above U+007F, a line with leading, trailing or consecutive
    whitespace makes the preprocessed text shorter than the input.  The
    offsets that a classifier computes on the preprocessed text are then
    not offsets of the same characters in the text that is rewritten: in
    [ Smith] the name is at 0..5 of what the classifier receives and at
    1..6 of the original. *)
Theorem preprocessing_shifts_offsets (U : unicode_tables) :
  (forall text,
     (forall line word,
        In line (Py.split_on NEWLINE text) -> In word (Py.split U line) ->
        length (preprocess_word U word) = length word) ->
     (exists line, In line (Py.split_on NEWLINE text)
                   /\ extra_whitespace U line = true) ->
     length (_preprocess_text U text) < length text)
  /\ (forall text,
        ascii_only text ->
        (exists line, In line (Py.split_on NEWLINE text)
                      /\ extra_whitespace U line = true) ->
        length (_preprocess_text U text) < length text)
  /\ (Py.slice (_preprocess_text U (ustr " Smith")) 0 5 = ustr "Smith"
      /\ Py.slice (ustr " Smith") 0 5 = ustr " Smit").
Proof.
  split; [|split].
  - intros text. apply preprocess_text_shorter.
  - intros text Ha. apply preprocess_text_shorter.
    intros line word Hl Hw. apply preprocess_word_length.
    exact (ascii_words U text line word Ha Hl Hw).
  - split; vm_compute; reflexivity.
Qed.

(** The claim as the specification words it: the lengths differ for any
    line with whitespace to drop.  In the line that is a space followed
    by [U+00DF a b], the space is dropped and the capitalized word is one
    character longer: both texts have 4 characters. *)
Lemma preprocessed_text_of_equal_length :
  ~ (forall (U : unicode_tables) (text : str),
       (exists line, In line (Py.split_on NEWLINE text)
                     /\ extra_whitespace U line = true) ->
       length (_preprocess_text U text) <> length text).
Proof.
  intros H.
  apply (H german_tables [SPACE; SHARP_S; 97%N; 98%N]).
  - eexists. split; [left; reflexivity | reflexivity].
  - reflexivity.
Qed.

Example sharp_s_capitalized :
  _preprocess_text german_tables [SPACE; SHARP_S; 97%N; 98%N]
  = ustr "Ssab".
Proof. reflexivity. Qed.

Lemma preprocessing_shifts_offsets_witness :
  ascii_only (ustr " Smith")
  /\ (exists line, In line (Py.split_on NEWLINE (ustr " Smith"))
                   /\ extra_whitespace plain_tables line = true)
  /\ length (_preprocess_text plain_tables (ustr " Smith"))
     < length (ustr " Smith").
Proof.
  assert (Ha : ascii_only (ustr " Smith"))
    by (repeat constructor).
  assert (He : exists line, In line (Py.split_on NEWLINE (ustr " Smith"))
                            /\ extra_whitespace plain_tables line = true)
    by (eexists; split; [left; reflexivity | reflexivity]).
  split; [exact Ha|]. split; [exact He|].
  exact (proj1 (proj2 (preprocessing_shifts_offsets plain_tables))
           (ustr " Smith") Ha He).
Defined.

(** The name found at 0..5 of the preprocessed text is not replaced in the
    original, where these offsets start on the space. *)
Example shifted_span_is_not_replaced :
  anonymize_text plain_tables tags_first_five (ustr " Smith") []
  = (Return (ustr " Smith"), [ustr "Smith"]).
Proof. reflexivity. Qed.

(* ================================================================== *)
(** * Overlap of the applied spans *)
(* ================================================================== *)

Section Overlap.

Variable U : unicode_tables.











End Overlap.


Example overlapping_spans_nest_placeholders :
  anonymize_text plain_tables
    (answering [mk_record "PER" 7 10 "ith"; mk_record "PER" 6 8 "mi"])
    (ustr "John Smith") []
  = (Return (ustr "John [[person]]"), [ustr "John Smith"]).
Proof. reflexivity. Qed.


(* ================================================================== *)
(** * What the matcher reports *)
(* ================================================================== *)

Section MatcherSound.

Variable U : unicode_tables.
Variable s : str.

Lemma run_le_hi (p : char -> bool) (l : str) :
  forall h, Re.run p (Some h) l <= h.
Proof.
  induction l as [|c l IH]; intros [|h]; simpl; try lia.
  destruct (p c); [|lia]. specialize (IH h). lia.
Qed.

(** A successful run of the matcher is a match of the pattern, followed by
    a successful run of the rest. *)
Lemma exec_sound (r : Re.regex) :
  forall k i e, Re.exec U s r k i = Some e ->
    exists j, matches U s r i j /\ k j = Some e.
Proof.
  induction r as [| |p|p lo hi|r IH|r1 IH1 r2 IH2]; intros k i e; simpl.
  - intros H. exists i. auto.
  - destruct (Re.at_boundary U s i) eqn:Hb; [|discriminate].
    intros H. exists i. auto.
  - destruct (nth_error s i) as [c|] eqn:Hc; [|discriminate].
    destruct (p c) eqn:Hp; [|discriminate].
    intros H. exists (S i). split; [|exact H]. split; [reflexivity|].
    exists c. auto.
  - intros H. apply ReFacts.backtrack_spec in H as (m & Hm & Hk).
    exists (i + m). split; [|exact Hk].
    split; [lia|]. split; [lia|]. split.
    + destruct hi as [h|]; [|exact I].
      pose proof (run_le_hi p (skipn i s) h). lia.
    + intros x Hx.
      destruct (ReFacts.run_spec p (skipn i s) hi (x - i))
        as (c & Hc & Hp); [lia|].
      rewrite nth_error_skipn in Hc.
      replace (i + (x - i)) with x in Hc by lia. exists c. auto.
  - destruct (Re.exec U s r k i) as [e'|] eqn:He.
    + intros H. injection H as ->.
      destruct (IH k i e He) as (j & Hj & Hk). exists j. auto.
    + intros H. exists i. auto.
  - intros H. apply IH1 in H as (m & Hm & H).
    apply IH2 in H as (j & Hj & Hk). exists j. split; [|exact Hk].
    exists m. auto.
Qed.

(** A match goes forward and stays within the string. *)
Lemma matches_bounds (r : Re.regex) :
  forall i j, matches U s r i j -> i <= length s ->
    i <= j /\ j <= length s.
Proof.
  induction r as [| |p|p lo hi|r IH|r1 IH1 r2 IH2]; intros i j; simpl.
  - intros ->. lia.
  - intros [-> _]. lia.
  - intros [-> (c & Hc & _)] _.
    assert (i < length s) by (apply nth_error_Some; congruence). lia.
  - intros (Hij & _ & _ & Hall) Hi. split; [exact Hij|].
    destruct (Nat.eq_dec i j) as [<-|Hne]; [exact Hi|].
    destruct (Hall (j - 1)) as (c & Hc & _); [lia|].
    assert (j - 1 < length s) by (apply nth_error_Some; congruence). lia.
  - intros [->|H] Hi; [lia | now apply IH].
  - intros (m & H1 & H2) Hi. apply IH1 in H1 as [? ?]; [|exact Hi].
    apply IH2 in H2 as [? ?]; lia.
Qed.

(** The spans that the scan reports: each is a match, starts at or after
    the position where the scan began, and lies within the string; each
    span ends before the next one starts. *)
Lemma scan_spans (r : Re.regex) :
  forall fuel pos,
    Forall (fun m => pos <= fst m /\ fst m <= snd m <= length s
                     /\ matches U s r (fst m) (snd m))
      (Re.scan U fuel s r pos)
    /\ StronglySorted (fun m1 m2 => snd m1 <= fst m2 /\ fst m1 < fst m2)
         (Re.scan U fuel s r pos).
Proof.
  induction fuel as [|fuel IH]; intros pos; simpl.
  - split; constructor.
  - destruct (length s <? pos) eqn:Hlen; [split; constructor|].
    apply Nat.ltb_ge in Hlen.
    destruct (Re.match_at U s r pos) as [e|] eqn:He.
    + unfold Re.match_at in He.
      apply exec_sound in He as (j & Hj & Hk). injection Hk as ->.
      pose proof (matches_bounds r pos e Hj Hlen) as [Hle He].
      destruct (IH (if e <=? pos then S pos else e)) as [Hall Hsorted].
      assert (Hnext : e <= (if e <=? pos then S pos else e)
                      /\ pos < (if e <=? pos then S pos else e)).
      { destruct (e <=? pos) eqn:Hc;
          [apply Nat.leb_le in Hc | apply Nat.leb_gt in Hc]; lia. }
      split.
      * constructor; [simpl; auto with arith|].
        eapply Forall_impl; [|exact Hall]. simpl. intros m Hm.
        repeat split; try tauto; lia.
      * constructor; [exact Hsorted|].
        eapply Forall_impl; [|exact Hall]. simpl. intros m Hm. lia.
    + destruct (IH (S pos)) as [Hall Hsorted]. split; [|exact Hsorted].
      eapply Forall_impl; [|exact Hall]. simpl. intros m Hm.
      repeat split; try tauto; lia.
Qed.

Lemma finditer_spans (r : Re.regex) :
  Forall (fun m => fst m <= snd m <= length s
                   /\ matches U s r (fst m) (snd m))
    (Re.finditer U r s)
  /\ StronglySorted (fun m1 m2 => snd m1 <= fst m2 /\ fst m1 < fst m2)
       (Re.finditer U r s).
Proof.
  unfold Re.finditer. destruct (scan_spans r (S (length s)) 0) as [Ha Hs].
  split; [|exact Hs]. eapply Forall_impl; [|exact Ha]. simpl. tauto.
Qed.

End MatcherSound.

(* ================================================================== *)
(** * The spans of the e-mail detector *)
(* ================================================================== *)

Section EmailSpans.

Variable U : unicode_tables.

Lemma char_eqb_eq (a b : char) : char_eqb a b = true -> a = b.
Proof. apply N.eqb_eq. Qed.

(** The shape of a match of the e-mail pattern: the local part, the at
    sign at [p], the domain, a dot, and at least two more characters; a
    word boundary on both sides; no other at sign. *)
Lemma email_match_shape (text : str) (a b : nat) :
  matches U text email_pattern a b ->
  Re.at_boundary U text a = true
  /\ Re.at_boundary U text b = true
  /\ exists p,
       a < p /\ p + 5 <= b
       /\ nth_error text p = Some AT
       /\ forall x, a <= x < b -> nth_error text x = Some AT -> x = p.
Proof.
  unfold email_pattern. cbn [Re.cat matches Re.lit].
  intros (m0 & [-> Hb0] & m1 & (H1a & H1b & _ & H1c)
          & m2 & [-> (c2 & Hc2 & Hp2)]
          & m3 & (H3a & H3b & _ & H3c)
          & m4 & [-> (c4 & Hc4 & Hp4)]
          & m5 & (H5a & H5b & _ & H5c)
          & m6 & [-> Hb6] & ->).
  apply char_eqb_eq in Hp2, Hp4. subst c2 c4.
  split; [exact Hb0|]. split; [exact Hb6|].
  exists m1. split; [lia|]. split; [lia|]. split; [exact Hc2|].
  intros x Hx Hat.
  destruct (Nat.lt_ge_cases x m1) as [Hlt|Hge].
  { destruct (H1c x) as (c & Hc & Hp); [lia|].
    rewrite Hat in Hc. injection Hc as <-. discriminate. }
  destruct (Nat.eq_dec x m1) as [->|Hne]; [reflexivity|].
  destruct (Nat.lt_ge_cases x m3) as [Hlt|Hge3].
  { destruct (H3c x) as (c & Hc & Hp); [lia|].
    rewrite Hat in Hc. injection Hc as <-. discriminate. }
  destruct (Nat.eq_dec x m3) as [->|Hne3].
  { rewrite Hat in Hc4. vm_compute in Hc4. discriminate. }
  destruct (H5c x) as (c & Hc & Hp); [lia|].
  rewrite Hat in Hc. injection Hc as <-. discriminate.
Qed.

Lemma detect_email_In (text : str) (e : entity) :
  In e (_detect_email U text) ->
  exists m, In m (Re.finditer U email_pattern text)
            /\ e = {| e_entity := ustr "EMAIL"; e_start := fst m;
                      e_end := snd m;
                      e_word := Py.slice text (fst m) (snd m);
                      e_replacement := None |}.
Proof.
  unfold _detect_email. intros H. apply in_map_iff in H as (m & <- & Hm).
  exists m. auto.
Qed.

(** X1.  Every entity of [_detect_email] is labelled EMAIL, has no
    ['replacement'] key, and its word is the slice of the text at its
    offsets; the span lies within the text, has at least 6 characters,
    stands between two word boundaries, and holds exactly one at sign,
    after at least one character and before at least four. *)
Theorem detected_email_is_well_formed (text : str) (e : entity) :
  In e (_detect_email U text) ->
  e_entity e = ustr "EMAIL"
  /\ e_replacement e = None
  /\ e_word e = Py.slice text (e_start e) (e_end e)
  /\ e_start e + 6 <= e_end e <= length text
  /\ Re.at_boundary U text (e_start e) = true
  /\ Re.at_boundary U text (e_end e) = true
  /\ exists p,
       e_start e < p /\ p + 5 <= e_end e
       /\ nth_error text p = Some AT
       /\ forall x, e_start e <= x < e_end e ->
            nth_error text x = Some AT -> x = p.
Proof.
  intros H. apply detect_email_In in H as (m & Hm & ->). simpl.
  destruct (finditer_spans U text email_pattern) as [Hall _].
  rewrite Forall_forall in Hall. destruct (Hall m Hm) as [Hb Hmatch].
  destruct (email_match_shape text _ _ Hmatch)
    as (Hb1 & Hb2 & p & Hp1 & Hp2 & Hp3 & Hp4).
  repeat split; auto; try lia.
  exists p. auto.
Qed.

Lemma spans_detect_email (text : str) :
  spans (_detect_email U text) = Re.finditer U email_pattern text.
Proof.
  unfold spans, _detect_email. rewrite map_map. simpl.
  rewrite <- (map_id (Re.finditer U email_pattern text)) at 2.
  apply map_ext. intros [a b]. reflexivity.
Qed.

(** X2.  The spans of [_detect_email] are listed by ascending start and
    are pairwise disjoint: each ends at or before the start of every
    later one. *)
Theorem detected_emails_are_disjoint (text : str) :
  StronglySorted (fun m1 m2 => snd m1 <= fst m2 /\ fst m1 < fst m2)
    (spans (_detect_email U text)).
Proof.
  rewrite spans_detect_email. apply finditer_spans.
Qed.

(** An e-mail span is left in place by a turn of the rewrite loop on the
    text in which it was found. *)
Lemma email_turn_keeps_text (text : str) (e : entity) :
  In e (_detect_email U text) ->
  rewrite_step U text e = Return (text, None).
Proof.
  intros He.
  apply detect_email_In in He as Hm. destruct Hm as (m & Hm & Heq).
  destruct (finditer_spans U text email_pattern) as [Hall _].
  rewrite Forall_forall in Hall. destruct (Hall m Hm) as [Hb Hmatch].
  destruct (email_match_shape text _ _ Hmatch)
    as (_ & _ & p & Hp1 & Hp2 & Hp3 & _).
  assert (Hs : e_start e = fst m) by (subst e; reflexivity).
  assert (Hen : e_end e = snd m) by (subst e; reflexivity).
  destruct (rewrite_step_returns U text e) as (w' & done & Hr);
    [lia | lia |].
  rewrite Hr.
  apply rewrite_step_spec in Hr as (s & Hst & _ & Hcase).
  cbv zeta in Hcase.
  destruct Hcase as [(_ & _ & Ha & _)|(-> & -> & _)]; [|reflexivity].
  exfalso.
  pose proof (expand_start_spec U text _ _ Hst) as (Hs1 & _).
  assert (Hle : e_end e <= length text) by lia.
  pose proof (expand_end_spec U text (e_end e) Hle) as (He1 & _).
  apply isalnum_slice in Ha as [_ Hall']; [|lia].
  destruct (Hall' p) as (c & Hc & Hal); [lia|].
  rewrite Hp3 in Hc. injection Hc as <-. discriminate.
Qed.

Lemma rewrite_emails (text : str) (es : list entity) :
  Forall (fun e => In e (_detect_email U text)) es ->
  rewrite U text es = Return (text, []).
Proof.
  induction 1 as [|e es He Hes IH]; simpl; [reflexivity|].
  rewrite (email_turn_keeps_text text e He). simpl. rewrite IH. reflexivity.
Qed.

(** X3.  [anonymize_text] never replaces an e-mail address by itself:
    when the classifier's answer yields no entity and the text has no
    phone match, the normalized text is returned as it is, whatever
    e-mail addresses it holds. *)
Theorem emails_alone_are_not_replaced (api : service) (text : str)
    (w w1 : list str) (ner : list element) :
  _query_model U api (_normalize_text U text) w = (Return ner, w1) ->
  resolve_all U ner = [] ->
  _detect_phone U (_normalize_text U text) = [] ->
  anonymize_text U api text w = (Return (_normalize_text U text), w1).
Proof.
  intros Hq Hner Hph. unfold anonymize_text, anonymize, bind, lift, ret.
  rewrite Hq. unfold all_entities. rewrite Hner, Hph, app_nil_r. simpl.
  rewrite rewrite_emails; [reflexivity|].
  apply Forall_forall. intros e He.
  exact (Permutation_in e (Permutation_sym (sort_desc_perm _)) He).
Qed.

End EmailSpans.

Lemma detected_email_is_well_formed_witness :
  let text := ustr "Contact me at a.b-c@sub.example.co for info" in
  let e := {| e_entity := ustr "EMAIL"; e_start := 14; e_end := 34;
              e_word := ustr "a.b-c@sub.example.co";
              e_replacement := None |} in
  In e (_detect_email plain_tables text)
  /\ e_start e + 6 <= e_end e <= length text.
Proof.
  intros text e.
  assert (He : In e (_detect_email plain_tables text))
    by (vm_compute; left; reflexivity).
  split; [exact He|].
  exact (proj1 (proj2 (proj2 (proj2
           (detected_email_is_well_formed plain_tables text e He))))).
Defined.

Lemma emails_alone_are_not_replaced_witness :
  let text := ustr "write to j.doe@example.org or k@x.io" in
  _query_model plain_tables (answering []) text [] = (Return [], [ustr "Write to j.doe@example.org or k@x.io"])
  /\ anonymize_text plain_tables (answering []) text []
     = (Return text, [ustr "Write to j.doe@example.org or k@x.io"]).
Proof.
  intros text.
  assert (Hq : _query_model plain_tables (answering [])
                 (_normalize_text plain_tables text) []
               = (Return [], [ustr "Write to j.doe@example.org or k@x.io"]))
    by reflexivity.
  split; [exact Hq|].
  exact (emails_alone_are_not_replaced plain_tables (answering []) text
           [] _ [] Hq eq_refl eq_refl).
Defined.

(* ================================================================== *)
(** * The spans of the phone detector *)
(* ================================================================== *)

Section PhoneSpans.

Variable U : unicode_tables.

Lemma matches_first_boundary (text : str) (rs : list Re.regex)
    (i j : nat) :
  matches U text (Re.cat (Re.Boundary :: rs)) i j ->
  Re.at_boundary U text i = true.
Proof. cbn [Re.cat matches]. intros (m & [-> Hb] & _). exact Hb. Qed.

Lemma matches_last_boundary (text : str) (rs : list Re.regex) :
  forall i j,
    matches U text (Re.cat (rs ++ [Re.Boundary])) i j ->
    Re.at_boundary U text j = true.
Proof.
  induction rs as [|r rs IH]; intros i j; cbn [app Re.cat matches].
  - intros (m & [-> Hb] & ->). exact Hb.
  - intros (m & _ & H). exact (IH m j H).
Qed.

Lemma grouped_boundaries (text : str) (lo hi i j : nat) :
  matches U text (grouped U lo hi) i j ->
  Re.at_boundary U text i = true /\ Re.at_boundary U text j = true.
Proof.
  unfold grouped. intros Hm. split.
  - exact (matches_first_boundary text _ i j Hm).
  - exact (matches_last_boundary text
             [ Re.Boundary; country_code U; digits U lo hi; sep;
               digits U lo hi; sep; digits U lo hi ] i j Hm).
Qed.

Lemma phone_pattern_boundaries (text : str) (pattern : Re.regex)
    (i j : nat) :
  In pattern (phone_patterns U) ->
  matches U text pattern i j ->
  Re.at_boundary U text i = true /\ Re.at_boundary U text j = true.
Proof.
  intros Hin. unfold phone_patterns in Hin. cbn [In] in Hin.
  destruct Hin as [<-|[<-|[<-|[<-|[<-|[]]]]]];
    try apply grouped_boundaries.
  intros Hm. split.
  - exact (matches_first_boundary text _ i j Hm).
  - exact (matches_last_boundary text
             [ Re.Boundary; country_code U; Re.opt (char_eqb LPAREN);
               digits U 3 3; Re.opt (char_eqb RPAREN); sep; digits U 3 3;
               sep; digits U 4 4 ] i j Hm).
Qed.

Lemma remove_char_length (c : char) (w : str) :
  length (Py.remove_char c w) <= length w.
Proof. apply filter_length_le. Qed.

Lemma strip_separators_length (w : str) :
  length (strip_separators w) <= length w.
Proof.
  unfold strip_separators.
  do 3 (eapply Nat.le_trans; [apply remove_char_length|]).
  apply remove_char_length.
Qed.

(** X4.  Every entity of [_detect_phone] is labelled PHONE, carries the
    replacement [[PHONE]], and its word is the slice of the text at its
    offsets; the span lies within the text, stands between two word
    boundaries, and has at least 6 characters that are not separators. *)
Theorem detected_phone_is_well_formed (text : str) (e : entity) :
  In e (_detect_phone U text) ->
  e_entity e = ustr "PHONE"
  /\ e_replacement e = Some (ustr "[PHONE]")
  /\ e_word e = Py.slice text (e_start e) (e_end e)
  /\ e_start e + 6 <= e_end e <= length text
  /\ Re.at_boundary U text (e_start e) = true
  /\ Re.at_boundary U text (e_end e) = true
  /\ 6 <= length (strip_separators (e_word e)).
Proof.
  intros H. apply detect_phone_In in H as (pattern & m & Hp & Hm & Ha & ->).
  simpl.
  destruct (finditer_spans U text pattern) as [Hall _].
  rewrite Forall_forall in Hall. destruct (Hall m Hm) as [Hb Hmatch].
  destruct (phone_pattern_boundaries text pattern _ _ Hp Hmatch)
    as [Hb1 Hb2].
  unfold phone_accepted in Ha. apply Nat.leb_le in Ha.
  pose proof (strip_separators_length (Py.slice text (fst m) (snd m)))
    as Hlen.
  rewrite slice_length in Hlen by lia.
  repeat split; auto; lia.
Qed.

End PhoneSpans.

Lemma detected_phone_is_well_formed_witness :
  let text := ustr "Call +1-555-123-4567 now" in
  let e := phone_entity text (6, 20) in
  In e (_detect_phone plain_tables text)
  /\ e_start e + 6 <= e_end e <= length text
  /\ 6 <= length (strip_separators (e_word e)).
Proof.
  intros text e.
  assert (He : In e (_detect_phone plain_tables text))
    by (vm_compute; left; reflexivity).
  split; [exact He|].
  pose proof (detected_phone_is_well_formed plain_tables text e He)
    as (_ & _ & _ & Hb & _ & _ & Hl).
  split; [exact Hb | exact Hl].
Defined.

(* ================================================================== *)
(** * The answers of the classifier *)
(* ================================================================== *)

Section Answers.

Variable U : unicode_tables.
Variable api : service.

(** X5.  [_query_model] raises the query error exactly when the request
    fails, and [ValueError] exactly when the decoded body is neither an
    array nor an object; otherwise it returns: the array itself, or its
    first element when that is an array (the elements after it are
    dropped), or the value of ['entities'], or the empty list when the
    object has no such key. *)
Theorem query_model_outcomes (text : str) (w : list str) :
  let answer := api (_preprocess_text U text) in
  let result := fst (_query_model U api text w) in
  (result = Raise QueryError <-> answer = RequestException)
  /\ (result = Raise ValueError <-> answer = Body JAtom)
  /\ (forall first rest,
        answer = Body (JArr (Arr first :: rest)) -> result = Return first)
  /\ (forall l,
        answer = Body (JArr l) ->
        (forall first rest, l <> Arr first :: rest) -> result = Return l)
  /\ (forall entities,
        answer = Body (JObj (Some entities)) -> result = Return entities)
  /\ (answer = Body (JObj None) -> result = Return []).
Proof.
  unfold _query_model, bind, post, ret, raise. simpl.
  destruct (api (_preprocess_text U text)) as [|[l|ents|]] eqn:Ha; simpl.
  - repeat split; intros; try discriminate; congruence.
  - destruct l as [|[r|sub|] l]; simpl;
      repeat split; intros; try discriminate; try congruence.
  - destruct ents as [l|]; simpl;
      repeat split; intros; try discriminate; congruence.
  - repeat split; intros; try discriminate; congruence.
Qed.

End Answers.

Lemma query_model_outcomes_witness :
  let api : service :=
    fun _ => Body (JArr [Arr [Obj (mk_record "PER" 0 4 "John")];
                         Obj (mk_record "PER" 5 10 "Smith")]) in
  api (_preprocess_text plain_tables (ustr "John Smith"))
  = Body (JArr [Arr [Obj (mk_record "PER" 0 4 "John")];
                Obj (mk_record "PER" 5 10 "Smith")])
  /\ fst (_query_model plain_tables api (ustr "John Smith") [])
     = Return [Obj (mk_record "PER" 0 4 "John")].
Proof.
  intros api. split; [reflexivity|].
  exact (proj1 (proj2 (proj2
           (query_model_outcomes plain_tables api (ustr "John Smith") [])))
           _ _ eq_refl).
Defined.

(* ================================================================== *)
(** * Labels and placeholders *)
(* ================================================================== *)

Section Labels.

Variable U : unicode_tables.

Lemma split_on_pieces (sep : char) (s : str) :
  Forall (fun p => Py.contains sep p = false) (Py.split_on sep s).
Proof.
  induction s as [|c s IH]; simpl.
  - repeat constructor.
  - destruct (char_eqb c sep) eqn:Hc.
    + constructor; [reflexivity | exact IH].
    + destruct (Py.split_on sep s) as [|p ps]; [repeat constructor|].
      * simpl. unfold char_eqb in *. rewrite N.eqb_sym, Hc. reflexivity.
      * apply Forall_cons_iff in IH as [Hp Hps]. constructor; [|exact Hps].
        simpl. unfold char_eqb in *. rewrite N.eqb_sym, Hc. exact Hp.
Qed.

Lemma join_last (sep : char) (init : list str) (l : str) :
  init <> [] ->
  Py.join [sep] (init ++ [l]) = Py.join [sep] init ++ sep :: l.
Proof.
  induction init as [|p init IH]; [congruence|]. intros _.
  destruct init as [|q init].
  - reflexivity.
  - change ((p :: q :: init) ++ [l]) with (p :: (q :: init) ++ [l]).
    change ((q :: init) ++ [l]) with (q :: init ++ [l]) at 1.
    rewrite !join_cons.
    change (q :: init ++ [l]) with ((q :: init) ++ [l]).
    rewrite IH by discriminate. now rewrite <- !app_assoc.
Qed.

(** The last piece of a split holds no separator; it is the whole string
    when the string holds none, and what follows the last separator
    otherwise. *)
Lemma last_split_on (sep : char) (s : str) :
  let l := last (Py.split_on sep s) [] in
  Py.contains sep l = false
  /\ ((Py.contains sep s = false /\ l = s)
      \/ exists prefix, s = prefix ++ sep :: l).
Proof.
  cbv zeta. pose proof (split_on_pieces sep s) as Hp.
  pose proof (join_split_on sep s) as Hj.
  destruct (split_on_cons sep s) as (p & ps & Hsp). rewrite Hsp in *.
  destruct (exists_last (l := p :: ps)) as (init & l & Heq);
    [discriminate|].
  rewrite Heq in *. rewrite last_last.
  apply Forall_app in Hp as [_ Hl]. apply Forall_inv in Hl.
  split; [exact Hl|].
  destruct init as [|q init].
  - left. simpl in Hj. subst s. auto.
  - right. rewrite join_last in Hj by discriminate. eauto.
Qed.

(** X6.  The label of a record is read from ['entity_group'], from
    ['label'] when that key is missing, and is empty when both are; what
    is kept of it is the part after its last hyphen, which holds no
    hyphen; a label without hyphen is kept whole. *)
Theorem label_is_cut_after_last_hyphen (r : record) :
  let raw := or_else (r_entity_group r) (or_else (r_label r) []) in
  Py.contains HYPHEN (entity_group_of r) = false
  /\ (Py.contains HYPHEN raw = false -> entity_group_of r = raw)
  /\ (Py.contains HYPHEN raw = true ->
      exists prefix, raw = prefix ++ HYPHEN :: entity_group_of r).
Proof.
  cbv zeta. unfold entity_group_of.
  set (raw := or_else (r_entity_group r) (or_else (r_label r) [])).
  destruct (last_split_on HYPHEN raw) as [Hl Hcase]. cbv zeta in *.
  destruct (Py.contains HYPHEN raw) eqn:Hc.
  - split; [exact Hl|]. split; [discriminate|]. intros _.
    destruct Hcase as [[Hno _]|Hex]; [discriminate | exact Hex].
  - split; [exact Hc|]. split; [reflexivity | discriminate].
Qed.

Lemma dict_get_missing (d : list (str * str)) (k default : str) :
  ~ In k (List.map fst d) -> dict_get d k default = default.
Proof.
  unfold dict_get. intros Hk.
  destruct (find (fun kv => str_eqb (fst kv) k) d) as [kv|] eqn:Hf;
    [|reflexivity].
  apply find_some in Hf as [Hin Heq]. apply str_eqb_eq in Heq.
  exfalso. apply Hk. rewrite <- Heq. now apply in_map.
Qed.

Lemma str_eqb_neq (a b : str) : a <> b -> str_eqb a b = false.
Proof.
  intros H. destruct (str_eqb a b) eqn:Heq; [|reflexivity].
  apply str_eqb_eq in Heq. contradiction.
Qed.

(** X7.  A record labelled ORG that passes the filter is given
    [[ORGANIZATION]] exactly when its surface is neither all-uppercase
    alphabetic nor title-case alphabetic: an all-uppercase alphabetic
    surface gets [[PERSON]] and a title-case alphabetic one
    [[Person]]. *)
Theorem organization_placeholder_by_casing (r : record) (e : entity) :
  entity_group_of r = ustr "ORG" ->
  resolve U r = Some e ->
  let word := e_word e in
  (upper_alpha U word = true -> e_replacement e = Some (ustr "[PERSON]"))
  /\ (upper_alpha U word = false -> title_alpha U word = true ->
      e_replacement e = Some (ustr "[Person]"))
  /\ (e_replacement e = Some (ustr "[ORGANIZATION]")
      <-> upper_alpha U word = false /\ title_alpha U word = false).
Proof.
  intros Hg Hr word.
  apply resolve_Some in Hr as (_ & _ & _ & _ & Hw & Hrep).
  subst word. rewrite Hw, Hrep, Hg.
  change (replacement_for U (ustr "ORG") (or_else (r_word r) []))
    with (organization_replacement U (ustr "ORG") (or_else (r_word r) [])).
  set (w := or_else (r_word r) []).
  unfold organization_replacement, upper_alpha, title_alpha.
  destruct (Py.isupper U w && Py.isalpha U w) eqn:Hu.
  - split; [reflexivity|]. split; [discriminate|]. split.
    + intros H. vm_compute in H. discriminate.
    + intros [H _]. discriminate.
  - split; [discriminate|].
    destruct (Py.istitle U w && Py.isalpha U w) eqn:Ht.
    + split; [reflexivity|]. split.
      * intros H. vm_compute in H. discriminate.
      * intros [_ H]. discriminate.
    + split; [discriminate|].
      destruct (negb (Py.isalpha U w)); split; auto.
Qed.

(** X8.  A record whose label is not PER, ORG or LOC is given the value
    of [replacement_dict] for its label, whatever its surface:
    [[MISC]] for MISC, and [[UNKNOWN]] for every label that is not a key
    of the dictionary. *)
Theorem other_labels_use_the_dictionary (r : record) (e : entity) :
  resolve U r = Some e ->
  let label := entity_group_of r in
  (~ In label [ustr "PER"; ustr "ORG"; ustr "LOC"] ->
   e_replacement e = Some (dict_get replacement_dict label UNKNOWN))
  /\ (label = ustr "MISC" -> e_replacement e = Some (ustr "[MISC]"))
  /\ (~ In label replacement_keys ->
      e_replacement e = Some (ustr "[UNKNOWN]")).
Proof.
  intros Hr label.
  apply resolve_Some in Hr as (_ & _ & _ & _ & _ & Hrep).
  fold label in Hrep. rewrite Hrep.
  assert (Hother : ~ In label [ustr "PER"; ustr "ORG"; ustr "LOC"] ->
            replacement_for U label (or_else (r_word r) [])
            = dict_get replacement_dict label UNKNOWN).
  { intros Hn. unfold replacement_for.
    rewrite !str_eqb_neq; [reflexivity| | |];
      intros Heq; apply Hn; rewrite Heq; simpl; auto. }
  split; [|split].
  - intros Hn. now rewrite Hother.
  - intros ->. reflexivity.
  - intros Hn. rewrite Hother.
    + now rewrite dict_get_missing.
    + intros Hin. apply Hn. unfold replacement_keys. simpl in *.
      intuition.
Qed.

Lemma dict_get_placeholder (k : str) :
  In (dict_get replacement_dict k UNKNOWN) placeholders.
Proof.
  unfold dict_get, replacement_dict. cbn [find fst snd].
  repeat (match goal with
          | |- context [if str_eqb ?a ?b then _ else _] =>
              destruct (str_eqb a b)
          end; [vm_compute; tauto|]).
  vm_compute; tauto.
Qed.

Lemma replacement_for_placeholder (entity_group word : str) :
  In (replacement_for U entity_group word) placeholders.
Proof.
  unfold replacement_for, person_replacement, organization_replacement,
    location_replacement.
  repeat (match goal with
          | |- context [if ?b then _ else _] => destruct b
          end);
    first [ apply dict_get_placeholder | vm_compute; tauto ].
Qed.

(** X9.  Whatever the classifier answers, the replacement of every entity
    that reaches the rewrite loop is one of the ten placeholders; text of
    the input or of the answer is never inserted. *)
Theorem replacements_are_placeholders (ner : list element) (text : str)
    (e : entity) :
  In e (all_entities U ner text) -> In (replacement_of e) placeholders.
Proof.
  intros He. unfold all_entities in He.
  apply (Permutation_in e (Permutation_sym (sort_desc_perm _))) in He.
  apply in_app_or in He as [He|He]; [|apply in_app_or in He as [He|He]].
  - apply resolve_all_In in He as (r & _ & Hr).
    apply resolve_Some in Hr as (_ & _ & _ & _ & _ & Hrep).
    unfold replacement_of. rewrite Hrep. apply replacement_for_placeholder.
  - apply detect_email_In in He as (m & _ & ->). vm_compute. tauto.
  - apply detect_phone_In in He as (p & m & _ & _ & _ & ->).
    vm_compute. tauto.
Qed.

End Labels.

Lemma label_is_cut_after_last_hyphen_witness :
  let r := {| r_entity_group := None; r_label := Some (ustr "B-I-LOC");
              r_start := None; r_end := None; r_word := None |} in
  Py.contains HYPHEN (ustr "B-I-LOC") = true
  /\ exists prefix, ustr "B-I-LOC" = prefix ++ HYPHEN :: entity_group_of r.
Proof.
  intros r. split; [reflexivity|].
  exact (proj2 (proj2 (label_is_cut_after_last_hyphen r)) eq_refl).
Defined.

Lemma organization_placeholder_by_casing_witness :
  let r := mk_record "ORG" 0 5 "Acme2" in
  let e := {| e_entity := ustr "ORG"; e_start := 0; e_end := 5;
              e_word := ustr "Acme2";
              e_replacement := Some (ustr "[ORGANIZATION]") |} in
  entity_group_of r = ustr "ORG"
  /\ resolve plain_tables r = Some e
  /\ (e_replacement e = Some (ustr "[ORGANIZATION]")
      <-> upper_alpha plain_tables (e_word e) = false
          /\ title_alpha plain_tables (e_word e) = false).
Proof.
  intros r e.
  assert (Hg : entity_group_of r = ustr "ORG") by reflexivity.
  assert (Hr : resolve plain_tables r = Some e) by reflexivity.
  split; [exact Hg|]. split; [exact Hr|].
  exact (proj2 (proj2
           (organization_placeholder_by_casing plain_tables r e Hg Hr))).
Defined.

Lemma other_labels_use_the_dictionary_witness :
  let r := mk_record "DATE" 0 4 "2024" in
  let e := {| e_entity := ustr "DATE"; e_start := 0; e_end := 4;
              e_word := ustr "2024";
              e_replacement := Some (ustr "[UNKNOWN]") |} in
  resolve plain_tables r = Some e
  /\ ~ In (entity_group_of r) replacement_keys
  /\ e_replacement e = Some (ustr "[UNKNOWN]").
Proof.
  intros r e.
  assert (Hr : resolve plain_tables r = Some e) by reflexivity.
  assert (Hn : ~ In (entity_group_of r) replacement_keys).
  { vm_compute. intros H.
    repeat (destruct H as [H|H]; [discriminate H|]). exact H. }
  split; [exact Hr|]. split; [exact Hn|].
  exact (proj2 (proj2
           (other_labels_use_the_dictionary plain_tables r e Hr)) Hn).
Defined.

Lemma replacements_are_placeholders_witness :
  let ner := [Obj (mk_record "weird" 5 10 "Smith")] in
  let e := {| e_entity := ustr "weird"; e_start := 5; e_end := 10;
              e_word := ustr "Smith";
              e_replacement := Some (ustr "[UNKNOWN]") |} in
  In e (all_entities plain_tables ner (ustr "John Smith"))
  /\ In (replacement_of e) placeholders.
Proof.
  intros ner e.
  assert (He : In e (all_entities plain_tables ner (ustr "John Smith")))
    by (vm_compute; left; reflexivity).
  split; [exact He|].
  exact (replacements_are_placeholders plain_tables ner
           (ustr "John Smith") e He).
Defined.

(* ================================================================== *)
(** * Turns of the rewrite loop: punctuation *)
(* ================================================================== *)

Section Turns.

Variable U : unicode_tables.

(** X11.  A span that covers a character of the working text that is not
    alphanumeric is never replaced: the turn leaves the text as it is.
    So are a hyphenated name, a number written with separators, and an
    address with its at sign. *)
Theorem span_with_punctuation_is_kept (w : str) (e : entity) (w' : str)
    (done : option edit) :
  rewrite_step U w e = Return (w', done) ->
  (exists i, e_start e <= i < e_end e /\ not_alnum_at U w i) ->
  w' = w /\ done = None.
Proof.
  intros Hr (i & Hi & c & Hc & Hn).
  apply rewrite_step_spec in Hr as (s & Hst & Hend & Hcase).
  cbv zeta in Hcase.
  destruct Hcase as [(_ & _ & Ha & _)|(-> & -> & _)]; [|auto].
  exfalso.
  pose proof (expand_start_spec U w _ _ Hst) as (Hs1 & _).
  pose proof (expand_end_spec U w (e_end e) Hend) as (He1 & _).
  apply isalnum_slice in Ha as [_ Hall]; [|lia].
  destruct (Hall i) as (c' & Hc' & Ha'); [lia|]. congruence.
Qed.

End Turns.

(** On a text that is one ten-digit number, four patterns report the same
    span; the first replacement leaves a working text shorter than the
    span, and the second turn raises. *)
Example digits_alone_raise :
  anonymize_text plain_tables (answering []) (ustr "5551234567") []
  = (Raise IndexError, [ustr "5551234567"]).
Proof. vm_compute. reflexivity. Qed.

Lemma span_with_punctuation_is_kept_witness :
  let e := {| e_entity := ustr "PER"; e_start := 0; e_end := 8;
              e_word := ustr "Jean-Luc";
              e_replacement := Some (ustr "[Person]") |} in
  let w := ustr "Jean-Luc Picard" in
  rewrite_step plain_tables w e = Return (w, None)
  /\ (exists i, e_start e <= i < e_end e /\ not_alnum_at plain_tables w i)
  /\ w = w.
Proof.
  intros e w.
  assert (Hr : rewrite_step plain_tables w e = Return (w, None))
    by (vm_compute; reflexivity).
  assert (Hi : exists i, e_start e <= i < e_end e
                         /\ not_alnum_at plain_tables w i).
  { exists 4. split; [simpl; lia|]. exists HYPHEN. split; reflexivity. }
  split; [exact Hr|]. split; [exact Hi|].
  exact (proj1 (span_with_punctuation_is_kept plain_tables w e w None
                  Hr Hi)).
Defined.

(* ================================================================== *)
(** * The page: filter, right-to-left replacement *)
(* ================================================================== *)

Section Page.

Variable U : unicode_tables.
Variable api : service.

Lemma splice_app (P S : str) (e : entity) :
  e_start e <= length P -> e_end e <= length P ->
  Py.slice_to (P ++ S) (e_start e) ++ replacement_of e
    ++ Py.slice_from (P ++ S) (e_end e)
  = (Py.slice_to P (e_start e) ++ replacement_of e
       ++ Py.slice_from P (e_end e)) ++ S.
Proof.
  intros Hs He. unfold Py.slice_to, Py.slice_from.
  rewrite firstn_app, skipn_app.
  replace (e_start e - length P) with 0 by lia.
  replace (e_end e - length P) with 0 by lia.
  simpl. rewrite app_nil_r. now rewrite <- !app_assoc.
Qed.

Lemma app_rewrite_app (rest : list entity) :
  forall P S,
    ForallOrdPairs apart rest ->
    Forall (fun e => e_start e <= length P /\ e_end e <= length P) rest ->
    app_rewrite (P ++ S) rest = app_rewrite P rest ++ S.
Proof.
  unfold app_rewrite.
  induction rest as [|b rest IH]; intros P S Hord Hin; [reflexivity|].
  inversion Hord as [|? ? Hb Hord']; subst.
  apply Forall_cons_iff in Hin as [[Hbs Hbe] Hin].
  cbn [fold_left]. rewrite splice_app by assumption.
  apply IH; [exact Hord'|].
  rewrite Forall_forall in Hb. apply Forall_forall. intros c Hc.
  destruct (Hb c Hc) as [H1 H2].
  unfold Py.slice_to. rewrite !length_app, length_firstn. lia.
Qed.

(** X14.  When the entities of the page are listed by descending start
    and none reaches into an earlier one, the replacements made from
    right to left are the replacements of all the spans at their offsets
    in the input: each one leaves the text before its span to the later
    ones and the text after it untouched. *)
Theorem right_to_left_replaces_at_offsets (es : list entity) :
  forall text,
    ForallOrdPairs apart es ->
    Forall (fun e => e_start e <= length text /\ e_end e <= length text)
      es ->
    app_rewrite text es = replace_at_offsets text es.
Proof.
  induction es as [|a rest IH]; intros text Hord Hin; [reflexivity|].
  inversion Hord as [|? ? Ha Hord']; subst.
  apply Forall_cons_iff in Hin as [[Has Hae] Hin].
  assert (Hrest : Forall (fun e => e_start e <= length (Py.slice_to text (e_start a))
                                   /\ e_end e <= length (Py.slice_to text (e_start a)))
                    rest).
  { rewrite Forall_forall in Ha. apply Forall_forall. intros c Hc.
    destruct (Ha c Hc) as [H1 H2].
    unfold Py.slice_to. rewrite length_firstn. lia. }
  cbn [replace_at_offsets]. rewrite <- (IH _ Hord' Hrest).
  change (app_rewrite text (a :: rest))
    with (app_rewrite (Py.slice_to text (e_start a)
                         ++ (replacement_of a
                               ++ Py.slice_from text (e_end a))) rest).
  now apply app_rewrite_app.
Qed.

(** X15.  The page applies no filter to the classifier's records: what
    [anonymize_text] detects from them, with label, offsets and word, is
    what the page detects, less the records with a surface shorter than 2
    characters or not alphanumeric once its hyphens are removed. *)
Theorem core_keeps_the_filtered_page_entities (ner : list element) :
  List.map detection (resolve_all U ner)
  = List.map detection
      (filter (fun e => negb (skipped U (e_word e)))
         (app_resolve_all U ner)).
Proof.
  induction ner as [|[r|sub|] ner IH]; simpl; try exact IH; [reflexivity|].
  unfold resolve.
  destruct (skipped U (or_else (r_word r) [])) eqn:Hs; simpl.
  - exact IH.
  - now rewrite IH.
Qed.

End Page.

Lemma right_to_left_replaces_at_offsets_witness :
  let text := ustr "John Smith" in
  ForallOrdPairs apart [Smith_span; John_span]
  /\ Forall (fun e => e_start e <= length text /\ e_end e <= length text)
       [Smith_span; John_span]
  /\ app_rewrite text [Smith_span; John_span]
     = replace_at_offsets text [Smith_span; John_span].
Proof.
  intros text.
  assert (Hord : ForallOrdPairs apart [Smith_span; John_span]).
  { repeat constructor; simpl; lia. }
  assert (Hin : Forall (fun e => e_start e <= length text
                                 /\ e_end e <= length text)
                  [Smith_span; John_span]).
  { repeat constructor; simpl; lia. }
  split; [exact Hord|]. split; [exact Hin|].
  exact (right_to_left_replaces_at_offsets [Smith_span; John_span] text
           Hord Hin).
Defined.

(** Without the condition the page loses text: the four spans that the
    patterns report for one number are applied one after the other, the
    later ones at offsets that the first replacement has moved. *)
Example page_eats_text_after_duplicates :
  fst (on_anonymize plain_tables (answering [])
         (ustr "Call 5551234567 now") [])
  = Return (Results (ustr "Call [PHONE]")
              (List.map (phone_entity (ustr "Call 5551234567 now"))
                 [(5, 15); (5, 15); (5, 15); (5, 15)])).
Proof. vm_compute. reflexivity. Qed.

(* ================================================================== *)
(** * Preprocessing: case only, and once is enough *)
(* ================================================================== *)

Ltac n_cases :=
  unfold ascii_tolower, ascii_toupper, ascii_isupper, ascii_islower,
    ascii_isspace, ascii_isdigit, is_ascii, between in *;
  repeat match goal with
         | |- context [(?a <=? ?b)%N] => destruct (N.leb_spec a b)
         | |- context [(?a <? ?b)%N] => destruct (N.ltb_spec a b)
         | H : context [(?a <=? ?b)%N] |- _ => destruct (N.leb_spec a b)
         | H : context [(?a <? ?b)%N] |- _ => destruct (N.ltb_spec a b)
         end;
  simpl in *; try reflexivity; try discriminate; try lia.

Lemma recased_ascii (c c' : char) :
  is_ascii c = true -> recased c c' -> is_ascii c' = true.
Proof. intros Hc [->|[->| ->]]; n_cases. Qed.

Lemma recased_tolower (c c' : char) :
  recased c c' -> ascii_tolower c' = ascii_tolower c.
Proof. intros [->|[->| ->]]; n_cases. Qed.

Lemma recased_isspace (c c' : char) :
  recased c c' -> ascii_isspace c' = ascii_isspace c.
Proof. intros [->|[->| ->]]; n_cases. Qed.

Lemma toupper_of_letter (c : char) :
  ascii_isupper c || ascii_islower c = true ->
  ascii_isupper (ascii_toupper c) = true.
Proof. n_cases. Qed.

Lemma tolower_of_letter (c : char) :
  ascii_isupper c || ascii_islower c = true ->
  ascii_islower (ascii_tolower c) = true.
Proof. n_cases. Qed.

Lemma upper_is_ascii (c : char) : ascii_isupper c = true -> is_ascii c = true.
Proof. n_cases. Qed.

Lemma lower_is_ascii (c : char) : ascii_islower c = true -> is_ascii c = true.
Proof. n_cases. Qed.

Section PreprocessOnce.

Variable U : unicode_tables.

Lemma lower_from_ascii (s rest : str) :
  ascii_only rest ->
  forall i, Py.lower_from U s i rest = List.map ascii_tolower rest.
Proof.
  induction 1 as [|c rest Hc Hrest IH]; intros i; simpl; [reflexivity|].
  unfold Py.lower_char. rewrite Hc. simpl. now rewrite IH.
Qed.

Lemma lower_ascii (w : str) :
  ascii_only w -> Py.lower U w = List.map ascii_tolower w.
Proof. intros H. now apply lower_from_ascii. Qed.

Lemma lower_from_recased (s rest : str) :
  ascii_only rest ->
  forall i, Forall2 recased rest (Py.lower_from U s i rest).
Proof.
  intros H i. rewrite lower_from_ascii by assumption.
  clear H. induction rest as [|c rest IH]; simpl; constructor; auto.
  right. now right.
Qed.

Lemma title_from_recased (s rest : str) :
  ascii_only rest ->
  forall i cased, Forall2 recased rest (Py.title_from U s i cased rest).
Proof.
  induction 1 as [|c rest Hc Hrest IH]; intros i cased; simpl;
    [constructor|].
  unfold Py.lower_char, Py.title_char. rewrite Hc.
  destruct cased; simpl; constructor; auto;
    [right; now right | right; now left].
Qed.

Lemma capitalize_recased (w : str) :
  ascii_only w -> Forall2 recased w (Py.capitalize U w).
Proof.
  intros H. destruct H as [|c rest Hc Hrest]; simpl; [constructor|].
  unfold Py.title_char. rewrite Hc. simpl. constructor.
  - right. now left.
  - now apply lower_from_recased.
Qed.

Lemma Forall2_same (w : str) : Forall2 recased w w.
Proof. induction w; constructor; auto. now left. Qed.

(** A preprocessed word is the word, character by character, up to the
    case of its letters. *)
Lemma preprocess_word_recased (word : str) :
  ascii_only word -> Forall2 recased word (preprocess_word U word).
Proof.
  intros H. unfold preprocess_word.
  destruct (Py.isupper U word && (2 <? length word)).
  - destruct (Py.isalpha U word); [|apply Forall2_same].
    now apply title_from_recased.
  - destruct (Py.islower U word && (2 <? length word));
      [|apply Forall2_same].
    destruct (Py.isalpha U word && _); [|apply Forall2_same].
    now apply capitalize_recased.
Qed.

Lemma recased_ascii_only (w w' : str) :
  ascii_only w -> Forall2 recased w w' -> ascii_only w'.
Proof.
  intros Ha H. induction H as [|c c' w w' Hc Hw IH]; [constructor|].
  apply Forall_cons_iff in Ha as [Hca Ha].
  constructor; [exact (recased_ascii c c' Hca Hc) | exact (IH Ha)].
Qed.

Lemma recased_lower (w w' : str) :
  Forall2 recased w w' ->
  List.map ascii_tolower w' = List.map ascii_tolower w.
Proof.
  induction 1 as [|c c' w w' Hc Hw IH]; simpl; [reflexivity|].
  now rewrite (recased_tolower c c' Hc), IH.
Qed.

Lemma recased_no_space (w w' : str) :
  ascii_only w -> Forall2 recased w w' ->
  no_space U w -> no_space U w'.
Proof.
  intros Ha H. induction H as [|c c' w w' Hc Hw IH]; intros Hn;
    [constructor|].
  apply Forall_cons_iff in Ha as [Hca Ha].
  apply Forall_cons_iff in Hn as [Hcn Hn].
  constructor; [|exact (IH Ha Hn)].
  unfold Py.c_isspace in *.
  rewrite (recased_ascii c c' Hca Hc), (recased_isspace c c' Hc).
  now rewrite Hca in Hcn.
Qed.

(** A word that starts with an uppercase letter followed by a lowercase
    one is left as it is. *)
Lemma capitalized_word_is_kept (u l : char) (rest : str) :
  Py.c_isupper U u = true -> Py.c_islower U l = true ->
  preprocess_word U (u :: l :: rest) = u :: l :: rest.
Proof.
  intros Hu Hl. unfold preprocess_word, Py.isupper, Py.islower.
  cbn [existsb]. rewrite Hu, Hl. simpl.
  rewrite !orb_true_r. reflexivity.
Qed.

Lemma ascii_letter_cased (c : char) :
  is_ascii c = true -> Py.c_isalpha U c = true -> Py.c_iscased U c = true.
Proof.
  unfold Py.c_isalpha, Py.c_iscased, Py.c_isupper, Py.c_islower,
    Py.c_istitle.
  intros ->. intros H. now rewrite orb_false_r.
Qed.

(** A preprocessed word is the word itself, or starts with an uppercase
    letter followed by a lowercase one. *)
Lemma preprocess_word_shape (word : str) :
  ascii_only word ->
  preprocess_word U word = word
  \/ exists u l rest,
       preprocess_word U word = u :: l :: rest
       /\ Py.c_isupper U u = true /\ Py.c_islower U l = true.
Proof.
  intros Ha.
  assert (Hcap : forall c0 c1 rest,
            word = c0 :: c1 :: rest -> Py.isalpha U word = true ->
            Py.c_isupper U (ascii_toupper c0) = true
            /\ Py.c_islower U (ascii_tolower c1) = true
            /\ Py.c_iscased U c0 = true).
  { intros c0 c1 rest -> Hal.
    apply Forall_cons_iff in Ha as [H0 Ha].
    apply Forall_cons_iff in Ha as [H1 _].
    unfold Py.isalpha in Hal. simpl in Hal.
    apply andb_true_iff in Hal as [Ha0 Hal].
    apply andb_true_iff in Hal as [Ha1 _].
    pose proof (ascii_letter_cased c0 H0 Ha0) as Hcased.
    unfold Py.c_isalpha in Ha0, Ha1. rewrite H0 in Ha0. rewrite H1 in Ha1.
    pose proof (toupper_of_letter c0 Ha0) as Hu.
    pose proof (tolower_of_letter c1 Ha1) as Hl.
    unfold Py.c_isupper, Py.c_islower.
    rewrite (upper_is_ascii _ Hu), (lower_is_ascii _ Hl). auto. }
  unfold preprocess_word.
  destruct (Py.isupper U word && (2 <? length word)) eqn:H1.
  - destruct (Py.isalpha U word) eqn:Hal; [|now left]. right.
    apply andb_true_iff in H1 as [_ Hlen]. apply Nat.ltb_lt in Hlen.
    destruct word as [|c0 [|c1 rest]]; simpl in Hlen; try lia.
    destruct (Hcap c0 c1 rest eq_refl eq_refl) as (Hu & Hl & Hc).
    apply Forall_cons_iff in Ha as [H0 Ha].
    apply Forall_cons_iff in Ha as [H1' _].
    exists (ascii_toupper c0), (ascii_tolower c1).
    eexists. split; [|auto].
    unfold Py.title. cbn [Py.title_from].
    unfold Py.title_char, Py.lower_char. rewrite H0, H1', Hc. reflexivity.
  - destruct (Py.islower U word && (2 <? length word)) eqn:H2;
      [|now left].
    destruct (Py.isalpha U word
              && match word with
                 | [] => false
                 | c :: _ => Py.c_isalpha U c
                 end) eqn:H3; [|now left].
    right. apply andb_true_iff in H2 as [_ Hlen].
    apply Nat.ltb_lt in Hlen. apply andb_true_iff in H3 as [Hal _].
    destruct word as [|c0 [|c1 rest]]; simpl in Hlen; try lia.
    destruct (Hcap c0 c1 rest eq_refl Hal) as (Hu & Hl & Hc).
    apply Forall_cons_iff in Ha as [H0 Ha].
    apply Forall_cons_iff in Ha as [H1' _].
    exists (ascii_toupper c0), (ascii_tolower c1).
    eexists. split; [|auto].
    unfold Py.capitalize. cbn [Py.lower_from].
    unfold Py.title_char, Py.lower_char. rewrite H0, H1'. reflexivity.
Qed.

Lemma preprocess_word_once (word : str) :
  ascii_only word ->
  preprocess_word U (preprocess_word U word) = preprocess_word U word.
Proof.
  intros Ha.
  destruct (preprocess_word_shape word Ha) as [H|(u & l & rest & H & Hu & Hl)].
  - now rewrite H.
  - rewrite H. now apply capitalized_word_is_kept.
Qed.

End PreprocessOnce.

Section PreprocessText.

Variable U : unicode_tables.

Lemma split_ws_app (w : str) :
  no_space U w ->
  forall cur rest,
    Py.split_ws U cur (w ++ rest) = Py.split_ws U (rev w ++ cur) rest.
Proof.
  induction 1 as [|c w Hc Hw IH]; intros cur rest; [reflexivity|].
  simpl. rewrite Hc, IH, <- app_assoc. reflexivity.
Qed.

Lemma split_ws_end (cur : str) :
  cur <> [] -> Py.split_ws U cur [] = [rev cur].
Proof. destruct cur; [congruence | reflexivity]. Qed.

Lemma rev_not_nil (w : str) : w <> [] -> rev w ++ [] <> [].
Proof.
  intros Hw H. rewrite app_nil_r in H.
  apply (f_equal (@rev char)) in H. rewrite rev_involutive in H.
  contradiction.
Qed.

(** Splitting what was joined with single spaces gives the words back. *)
Lemma split_join (ws : list str) :
  Forall (fun w => w <> [] /\ no_space U w) ws ->
  Py.split U (Py.join [SPACE] ws) = ws.
Proof.
  unfold Py.split.
  induction 1 as [|w ws [Hne Hns] Hws IH]; [reflexivity|].
  destruct ws as [|w' ws].
  - simpl. rewrite <- (app_nil_r w) at 1.
    rewrite split_ws_app by assumption.
    rewrite split_ws_end by now apply rev_not_nil.
    now rewrite app_nil_r, rev_involutive.
  - rewrite join_cons, split_ws_app by assumption.
    change ([SPACE] ++ Py.join [SPACE] (w' :: ws))
      with (SPACE :: Py.join [SPACE] (w' :: ws)).
    cbn [Py.split_ws].
    change (Py.c_isspace U SPACE) with true. cbv iota.
    rewrite IH.
    destruct (rev w ++ []) eqn:Hr; [now apply rev_not_nil in Hr|].
    rewrite <- Hr, app_nil_r, rev_involutive. reflexivity.
Qed.

(** The words of a split are not empty and hold no whitespace. *)
Lemma split_ws_words (l : str) :
  forall cur, no_space U cur ->
    Forall (fun w => w <> [] /\ no_space U w) (Py.split_ws U cur l).
Proof.
  assert (Hrev : forall cur, cur <> [] -> no_space U cur ->
                   rev cur <> [] /\ no_space U (rev cur)).
  { intros cur Hne Hns. split.
    - intros H. apply (f_equal (@rev char)) in H.
      rewrite rev_involutive in H. contradiction.
    - now apply Forall_rev. }
  induction l as [|c l IH]; intros cur Hcur; simpl.
  - destruct cur as [|x cur]; [constructor|].
    constructor; [|constructor]. now apply Hrev.
  - destruct (Py.c_isspace U c) eqn:Hc.
    + destruct cur as [|x cur]; [apply IH; constructor|].
      constructor; [now apply Hrev | apply IH; constructor].
    + apply IH. now constructor.
Qed.

Lemma split_on_app (sep : char) (l rest : str) :
  Py.contains sep l = false ->
  Py.split_on sep (l ++ sep :: rest) = l :: Py.split_on sep rest.
Proof.
  induction l as [|c l IH]; intros Hl.
  - simpl. unfold char_eqb. now rewrite N.eqb_refl.
  - simpl in Hl. apply orb_false_iff in Hl as [Hc Hl].
    simpl. unfold char_eqb in *. rewrite N.eqb_sym, Hc.
    now rewrite (IH Hl).
Qed.

Lemma split_on_whole (sep : char) (l : str) :
  Py.contains sep l = false -> Py.split_on sep l = [l].
Proof.
  induction l as [|c l IH]; intros Hl; [reflexivity|].
  simpl in Hl. apply orb_false_iff in Hl as [Hc Hl].
  simpl. unfold char_eqb in *. rewrite N.eqb_sym, Hc.
  now rewrite (IH Hl).
Qed.

(** Splitting what was joined with newlines gives the lines back. *)
Lemma split_on_join (sep : char) (lines : list str) :
  lines <> [] ->
  Forall (fun l => Py.contains sep l = false) lines ->
  Py.split_on sep (Py.join [sep] lines) = lines.
Proof.
  intros Hne H. induction H as [|l lines Hl Hlines IH]; [congruence|].
  destruct lines as [|l' lines].
  - simpl. now apply split_on_whole.
  - rewrite join_cons.
    change ([sep] ++ Py.join [sep] (l' :: lines))
      with (sep :: Py.join [sep] (l' :: lines)).
    rewrite split_on_app by assumption.
    rewrite IH by discriminate. reflexivity.
Qed.

Lemma contains_app (x : char) (a b : str) :
  Py.contains x (a ++ b) = Py.contains x a || Py.contains x b.
Proof. apply existsb_app. Qed.

Lemma join_contains (x sep : char) (ws : list str) :
  char_eqb x sep = false ->
  Forall (fun w => Py.contains x w = false) ws ->
  Py.contains x (Py.join [sep] ws) = false.
Proof.
  intros Hsep H. induction H as [|w ws Hw Hws IH]; [reflexivity|].
  destruct ws as [|w' ws]; [exact Hw|].
  rewrite join_cons, !contains_app, Hw, IH. simpl. now rewrite Hsep.
Qed.

Lemma no_space_no_newline (w : str) :
  no_space U w -> Py.contains NEWLINE w = false.
Proof.
  induction 1 as [|c w Hc Hw IH]; [reflexivity|].
  unfold Py.contains in *. cbn [existsb]. rewrite IH, orb_false_r.
  destruct (char_eqb NEWLINE c) eqn:Hn; [|reflexivity].
  apply N.eqb_eq in Hn. subst c. discriminate.
Qed.

(** The words of an ASCII line and their preprocessed forms. *)
Lemma preprocessed_words (line : str) :
  ascii_only line ->
  Forall (fun w => ascii_only w /\ w <> [] /\ no_space U w)
    (Py.split U line)
  /\ Forall (fun w => w <> [] /\ no_space U w)
       (List.map (preprocess_word U) (Py.split U line)).
Proof.
  intros Ha.
  assert (Hw : Forall (fun w => ascii_only w /\ w <> [] /\ no_space U w)
                 (Py.split U line)).
  { pose proof (split_ws_words line [] (Forall_nil _)) as H.
    fold (Py.split U line) in H. rewrite Forall_forall in H.
    apply Forall_forall. intros w Hin. split; [|exact (H w Hin)].
    apply Forall_forall. intros c Hc.
    unfold ascii_only in Ha. rewrite Forall_forall in Ha. apply Ha.
    destruct (split_ws_chars U line [] w Hin c Hc) as [[]|Hl]. exact Hl. }
  split; [exact Hw|].
  apply Forall_map. eapply Forall_impl; [|exact Hw].
  intros w (Hwa & Hne & Hns).
  pose proof (preprocess_word_recased U w Hwa) as Hr. split.
  - apply Forall2_length in Hr. intros H. rewrite H in Hr.
    destruct w; [congruence | discriminate].
  - exact (recased_no_space U w _ Hwa Hr Hns).
Qed.

Lemma split_preprocess_line (line : str) :
  ascii_only line ->
  Py.split U (preprocess_line U line)
  = List.map (preprocess_word U) (Py.split U line).
Proof.
  intros Ha. unfold preprocess_line. apply split_join.
  apply (preprocessed_words line Ha).
Qed.

Lemma preprocess_line_once (line : str) :
  ascii_only line ->
  preprocess_line U (preprocess_line U line) = preprocess_line U line.
Proof.
  intros Ha. unfold preprocess_line at 1.
  rewrite (split_preprocess_line line Ha), map_map.
  unfold preprocess_line. f_equal. apply map_ext_in. intros w Hw.
  apply preprocess_word_once.
  destruct (preprocessed_words line Ha) as [H _].
  rewrite Forall_forall in H. apply (H w Hw).
Qed.

Lemma preprocess_line_no_newline (line : str) :
  ascii_only line ->
  Py.contains NEWLINE (preprocess_line U line) = false.
Proof.
  intros Ha. unfold preprocess_line. apply join_contains; [reflexivity|].
  destruct (preprocessed_words line Ha) as [_ H].
  eapply Forall_impl; [|exact H]. intros w [_ Hns].
  now apply no_space_no_newline.
Qed.

Lemma ascii_lines (text : str) :
  ascii_only text -> Forall ascii_only (Py.split_on NEWLINE text).
Proof.
  intros Ha. apply Forall_forall. intros line Hl.
  apply Forall_forall. intros c Hc.
  unfold ascii_only in Ha. rewrite Forall_forall in Ha. apply Ha.
  exact (split_on_chars NEWLINE text line Hl c Hc).
Qed.

Lemma split_preprocess_text (text : str) :
  ascii_only text ->
  Py.split_on NEWLINE (_preprocess_text U text)
  = List.map (preprocess_line U) (Py.split_on NEWLINE text).
Proof.
  intros Ha. unfold _preprocess_text. apply split_on_join.
  - destruct (split_on_cons NEWLINE text) as (p & ps & ->). discriminate.
  - apply Forall_map. eapply Forall_impl; [|exact (ascii_lines text Ha)].
    intros line Hl. now apply preprocess_line_no_newline.
Qed.

(** X16.  On a text without characters above U+007F, preprocessing keeps
    the lines and the words of the text and changes nothing in them but
    the case of letters: the preprocessed text has the preprocessed lines
    as its lines, as many as the input, and the same words in lowercase,
    line by line. *)
Theorem preprocessing_keeps_lines_and_words (text : str) :
  ascii_only text ->
  Py.split_on NEWLINE (_preprocess_text U text)
  = List.map (preprocess_line U) (Py.split_on NEWLINE text)
  /\ length (Py.split_on NEWLINE (_preprocess_text U text))
     = length (Py.split_on NEWLINE text)
  /\ lowered_words U (_preprocess_text U text) = lowered_words U text.
Proof.
  intros Ha. pose proof (split_preprocess_text text Ha) as Hs.
  split; [exact Hs|]. split; [now rewrite Hs, length_map|].
  unfold lowered_words. rewrite Hs, map_map.
  apply map_ext_in. intros line Hl.
  pose proof (ascii_lines text Ha) as Hlines.
  rewrite Forall_forall in Hlines. specialize (Hlines line Hl).
  rewrite (split_preprocess_line line Hlines), map_map.
  apply map_ext_in. intros w Hw.
  destruct (preprocessed_words line Hlines) as [H _].
  rewrite Forall_forall in H. destruct (H w Hw) as (Hwa & _).
  pose proof (preprocess_word_recased U w Hwa) as Hr.
  rewrite (lower_ascii U _ (recased_ascii_only w _ Hwa Hr)).
  rewrite (lower_ascii U w Hwa). now apply recased_lower.
Qed.

(** X17.  On a text without characters above U+007F, preprocessing a
    preprocessed text changes nothing. *)
Theorem preprocessing_once_is_enough (text : str) :
  ascii_only text ->
  _preprocess_text U (_preprocess_text U text) = _preprocess_text U text.
Proof.
  intros Ha. unfold _preprocess_text at 1.
  rewrite (split_preprocess_text text Ha), map_map.
  unfold _preprocess_text. f_equal. apply map_ext_in. intros line Hl.
  apply preprocess_line_once.
  pose proof (ascii_lines text Ha) as Hlines.
  rewrite Forall_forall in Hlines. exact (Hlines line Hl).
Qed.

End PreprocessText.

Lemma preprocessing_keeps_lines_and_words_witness :
  let text := ustr "JOHN  smith
 works at ACME2 " in
  ascii_only text
  /\ length (Py.split_on NEWLINE (_preprocess_text plain_tables text)) = 2
  /\ lowered_words plain_tables (_preprocess_text plain_tables text)
     = [[ustr "john"; ustr "smith"]; [ustr "works"; ustr "at"; ustr "acme2"]].
Proof.
  intros text.
  assert (Ha : ascii_only text) by (repeat constructor).
  split; [exact Ha|].
  destruct (preprocessing_keeps_lines_and_words plain_tables text Ha)
    as (_ & Hn & Hw).
  split; [rewrite Hn; reflexivity | rewrite Hw; reflexivity].
Defined.

Lemma preprocessing_once_is_enough_witness :
  let text := ustr "JOHN  smith works at ACME2 " in
  ascii_only text
  /\ _preprocess_text plain_tables (_preprocess_text plain_tables text)
     = ustr "John Smith Works at ACME2".
Proof.
  intros text.
  assert (Ha : ascii_only text) by (repeat constructor).
  split; [exact Ha|].
  rewrite (preprocessing_once_is_enough plain_tables text Ha).
  reflexivity.
Defined.

(* ================================================================== *)
(** * Failures of anonymize_text *)
(* ================================================================== *)

Section Failures.

Variable U : unicode_tables.
Variable api : service.

Lemma rewrite_exn (es : list entity) :
  forall w x, rewrite U w es = Raise x -> x = IndexError.
Proof.
  induction es as [|e rest IH]; intros w x; simpl; [discriminate|].
  destruct (rewrite_step U w e) as [[w1 done]|y] eqn:Hstep; simpl.
  - destruct (rewrite U w1 rest) as [[final edits]|y] eqn:Hrest; simpl;
      [discriminate|].
    intros H. injection H as <-. exact (IH w1 y Hrest).
  - intros H. injection H as <-. exact (rewrite_step_exn U w e y Hstep).
Qed.

Lemma anonymize_text_unfold (text : str) (w : list str) :
  anonymize_text U api text w
  = match _query_model U api (_normalize_text U text) w with
    | (Return ner, w') =>
        (match rewrite U (_normalize_text U text)
                 (all_entities U ner (_normalize_text U text)) with
         | Return r => Return (fst r)
         | Raise e => Raise e
         end, w')
    | (Raise e, w') => (Raise e, w')
    end.
Proof.
  unfold anonymize_text, anonymize, bind, lift, ret.
  destruct (_query_model U api (_normalize_text U text) w) as [[ner|e] w'];
    [|reflexivity].
  destruct (rewrite U _ _) as [r|e]; reflexivity.
Qed.

Lemma query_model_cases (text : str) (w : list str) :
  let answer := api (_preprocess_text U text) in
  let result := fst (_query_model U api text w) in
  (answer = RequestException /\ result = Raise QueryError)
  \/ (answer = Body JAtom /\ result = Raise ValueError)
  \/ (answer <> RequestException /\ answer <> Body JAtom
      /\ exists ner, result = Return ner).
Proof.
  unfold _query_model, bind, post, ret, raise. simpl.
  destruct (api (_preprocess_text U text)) as [|[l|ents|]]; simpl.
  - now left.
  - right. right. split; [discriminate|]. split; [discriminate|].
    destruct l as [|[r|sub|] l]; eexists; reflexivity.
  - right. right. split; [discriminate|]. split; [discriminate|].
    eexists. reflexivity.
  - right. now left.
Qed.

(** X18.  [anonymize_text] does not catch what [_query_model] raises: it
    raises the query error exactly when the request fails and
    [ValueError] exactly when the decoded body is neither a list nor a
    dict, in both cases after its one request.  An [IndexError] leaves it
    only after an answer that [_query_model] accepted.  Whatever the
    outcome, exactly one request was posted, with the preprocessed
    normalized text. *)
Theorem anonymize_text_failures (text : str) (w : list str) :
  let answer := api (_preprocess_text U (_normalize_text U text)) in
  let result := fst (anonymize_text U api text w) in
  (result = Raise QueryError <-> answer = RequestException)
  /\ (result = Raise ValueError <-> answer = Body JAtom)
  /\ (result = Raise IndexError ->
      exists ner,
        fst (_query_model U api (_normalize_text U text) w) = Return ner)
  /\ snd (anonymize_text U api text w)
     = w ++ [_preprocess_text U (_normalize_text U text)].
Proof.
  cbv zeta. rewrite anonymize_text_unfold.
  pose proof (query_model_posts_once U api (_normalize_text U text) w)
    as Hpost.
  pose proof (query_model_cases (_normalize_text U text) w) as Hc.
  cbv zeta in Hc.
  destruct (_query_model U api (_normalize_text U text) w)
    as [[ner|e] w'] eqn:Hq; simpl in *.
  - destruct Hc as [[_ H]|[[_ H]|(Hn1 & Hn2 & _)]]; try discriminate.
    destruct (rewrite U _ _) as [r|x] eqn:Hr; simpl.
    + repeat split; try discriminate; try tauto; eauto.
    + pose proof (rewrite_exn _ _ _ Hr) as ->.
      repeat split; try discriminate; try tauto; eauto.
  - destruct Hc as [[Ha H]|[[Ha H]|(_ & _ & ner & H)]];
      try discriminate; injection H as ->; rewrite Ha;
      repeat split; try discriminate; try tauto.
Qed.

End Failures.

Lemma anonymize_text_failures_witness :
  let api : service := fun _ => RequestException in
  fst (anonymize_text plain_tables api (ustr "John Smith") [])
  = Raise QueryError
  /\ snd (anonymize_text plain_tables api (ustr "John Smith") [])
     = [ustr "John Smith"].
Proof.
  intros api.
  destruct (anonymize_text_failures plain_tables api (ustr "John Smith") [])
    as (H1 & _ & _ & H4).
  split; [apply H1; reflexivity | exact H4].
Defined.

(* ================================================================== *)
(** * Placeholders by casing, the tables written out *)
(* ================================================================== *)

Section Tables.

Variable U : unicode_tables.

Lemma endswith_iff (s p : str) :
  Py.endswith s p = true <-> exists prefix, s = prefix ++ p.
Proof.
  unfold Py.endswith. rewrite andb_true_iff, Nat.leb_le, str_eqb_eq. split.
  - intros [_ Heq]. exists (firstn (length s - length p) s).
    rewrite <- Heq at 2. symmetry. apply firstn_skipn.
  - intros [prefix ->]. rewrite length_app. split; [lia|].
    replace (length prefix + length p - length p) with (length prefix)
      by lia.
    rewrite skipn_app, skipn_all, Nat.sub_diag. reflexivity.
Qed.

Lemma startswith_iff (s p : str) :
  Py.startswith s p = true <-> exists rest, s = p ++ rest.
Proof.
  unfold Py.startswith. rewrite str_eqb_eq. split.
  - intros Heq. exists (skipn (length p) s).
    transitivity (firstn (length p) s ++ skipn (length p) s);
      [symmetry; apply firstn_skipn | f_equal; exact Heq].
  - intros [rest ->].
    rewrite firstn_app, Nat.sub_diag, firstn_all. simpl.
    apply app_nil_r.
Qed.

Lemma endswith_any_iff (s : str) (ps : list str) :
  Py.endswith_any s ps = true <-> ends_with_one_of ps s.
Proof.
  unfold Py.endswith_any, ends_with_one_of. rewrite existsb_exists. split.
  - intros (p & Hin & H). apply endswith_iff in H as [prefix ->]. eauto.
  - intros (p & prefix & Hin & ->). exists p. split; [exact Hin|].
    apply endswith_iff. eauto.
Qed.

Lemma startswith_any_iff (s : str) (ps : list str) :
  Py.startswith_any s ps = true <-> starts_with_one_of ps s.
Proof.
  unfold Py.startswith_any, starts_with_one_of. rewrite existsb_exists.
  split.
  - intros (p & Hin & H). apply startswith_iff in H as [rest ->]. eauto.
  - intros (p & rest & Hin & ->). exists p. split; [exact Hin|].
    apply startswith_iff. eauto.
Qed.

(** The generator expression over the values of [surname_patterns]. *)
Lemma is_surname_iff (word : str) :
  is_surname U word = true
  <-> ends_with_one_of (flat_map snd surname_patterns) (Py.lower U word).
Proof.
  unfold is_surname, ends_with_one_of. rewrite existsb_exists. split.
  - intros (patterns & Hin & H). apply existsb_exists in H as (p & Hp & H).
    apply endswith_iff in H as [prefix Heq].
    exists p, prefix. split; [|exact Heq].
    apply in_flat_map. eauto.
  - intros (p & prefix & Hin & Heq).
    apply in_flat_map in Hin as (patterns & Hin & Hp).
    exists patterns. split; [exact Hin|].
    apply existsb_exists. exists p. split; [exact Hp|].
    apply endswith_iff. eauto.
Qed.

(** C3.  A classifier record labelled PER that passes the length and
    alphanumeric filter gets its placeholder from the casing of its
    surface, the shapes tried in this order: all-uppercase alphabetic gives
    [[PERSON]]; all-lowercase gives [[person]]; title case gives
    [[SURNAME]] when the lowercased surface ends with one of the surname
    suffixes of the program, listed here as the source has them, and
    [[Person]] when it ends with none of them; any other shape gives
    [[PERSON]].  The lowercasing maps every letter [A]..[Z] of a surface
    without character above U+007F to [a]..[z]; and a title-case surface
    that starts with two such characters is not all-uppercase. *)
Theorem person_placeholder_by_casing (r : record) (e : entity) :
  let suffixes :=
    List.map ustr
      [ "ov"; "ev"; "ski"; "sky"; "ova"; "eva";
        "yan"; "ian"; "jin"; "chen"; "li"; "wang";
        "sen"; "sson"; "dottir" ]%string
    ++ [ ustr "d" ++ [8730%N; 8805%N] ++ ustr "ttir" ]
    ++ List.map ustr
         [ "zadeh"; "oglu"; "oglu"; "oglu"; "pour";
           "raj"; "kumar"; "singh"; "patel"; "sharma";
           "ez"; "es"; "os"; "as"; "is" ]%string in
  entity_group_of r = ustr "PER" ->
  resolve U r = Some e ->
  let word := e_word e in
  (2 <= length word /\ Py.isalnum U (Py.remove_char HYPHEN word) = true)
  /\ (upper_alpha U word = true -> e_replacement e = Some (ustr "[PERSON]"))
  /\ (Py.islower U word = true -> e_replacement e = Some (ustr "[person]"))
  /\ (upper_alpha U word = false -> Py.istitle U word = true ->
      ends_with_one_of suffixes (Py.lower U word) ->
      e_replacement e = Some (ustr "[SURNAME]"))
  /\ (upper_alpha U word = false -> Py.istitle U word = true ->
      ~ ends_with_one_of suffixes (Py.lower U word) ->
      e_replacement e = Some (ustr "[Person]"))
  /\ (upper_alpha U word = false -> Py.islower U word = false ->
      Py.istitle U word = false -> e_replacement e = Some (ustr "[PERSON]"))
  /\ (ascii_only word -> Py.lower U word = List.map ascii_tolower word)
  /\ (forall c1 c2 rest,
        word = c1 :: c2 :: rest ->
        is_ascii c1 = true -> is_ascii c2 = true ->
        Py.istitle U word = true -> upper_alpha U word = false).
Proof.
  intros suffixes Hg Hr word.
  apply resolve_Some in Hr as (Hs & _ & _ & _ & Hw & Hrep).
  subst word. rewrite Hw, Hrep, Hg, replacement_for_PER.
  apply skipped_false in Hs. split; [exact Hs|].
  set (w := or_else (r_word r) []).
  assert (Hsur : is_surname U w = true
                 <-> ends_with_one_of suffixes (Py.lower U w))
    by apply is_surname_iff.
  unfold person_replacement, upper_alpha.
  split; [|split; [|split; [|split; [|split; [|split]]]]].
  - intros H. now rewrite H.
  - intros H. rewrite (islower_not_isupper U w H). simpl. now rewrite H.
  - intros H Ht Hsuf. apply Hsur in Hsuf.
    now rewrite H, (istitle_not_islower U w Ht), Ht, Hsuf.
  - intros H Ht Hsuf. rewrite H, (istitle_not_islower U w Ht), Ht.
    destruct (is_surname U w) eqn:E; [|reflexivity].
    exfalso. apply Hsuf, Hsur. reflexivity.
  - intros H H0 H1. now rewrite H, H0, H1.
  - apply lower_ascii.
  - intros c1 c2 rest Heq H1 H2 Ht. rewrite Heq in *.
    destruct (Py.isupper U (c1 :: c2 :: rest)
              && Py.isalpha U (c1 :: c2 :: rest)) eqn:Hup; [|reflexivity].
    rewrite (upper_alpha_not_istitle U c1 c2 rest H1 H2 Hup) in Ht.
    discriminate.
Qed.

(** C7.  A classifier record labelled LOC that passes the filter:
    an all-uppercase alphabetic surface gets [[PERSON]]; a title-case
    alphabetic surface gets [[LOCATION]] exactly when its lowercasing ends
    with one of the location suffixes or starts with one of the location
    prefixes of the program, listed here as the source has them, and
    [[Person]] otherwise; every other surface gets the base placeholder
    [[LOCATION]].  The lowercasing maps every letter [A]..[Z] of a surface
    without character above U+007F to [a]..[z]; and a title-case surface
    that starts with two such characters is not all-uppercase. *)
Theorem location_placeholder_by_casing (r : record) (e : entity) :
  let suffixes :=
    List.map ustr
      [ "burg"; "berg"; "town"; "city"; "ville"; "polis"; "grad"; "abad";
        "pur"; "nagar"; "pore"; "stan"; "land"; "ia"; "ya" ]%string in
  let prefixes :=
    List.map ustr
      [ "new"; "old"; "north"; "south"; "east"; "west"; "upper"; "lower";
        "port"; "fort"; "saint"; "san"; "santa" ]%string in
  entity_group_of r = ustr "LOC" ->
  resolve U r = Some e ->
  let word := e_word e in
  let lowered := Py.lower U word in
  (2 <= length word /\ Py.isalnum U (Py.remove_char HYPHEN word) = true)
  /\ (upper_alpha U word = true -> e_replacement e = Some (ustr "[PERSON]"))
  /\ (upper_alpha U word = false -> title_alpha U word = true ->
      (e_replacement e = Some (ustr "[LOCATION]")
       <-> ends_with_one_of suffixes lowered
           \/ starts_with_one_of prefixes lowered)
      /\ (~ (ends_with_one_of suffixes lowered
             \/ starts_with_one_of prefixes lowered) ->
          e_replacement e = Some (ustr "[Person]")))
  /\ (upper_alpha U word = false -> title_alpha U word = false ->
      e_replacement e = Some (ustr "[LOCATION]"))
  /\ (ascii_only word -> lowered = List.map ascii_tolower word)
  /\ (forall c1 c2 rest,
        word = c1 :: c2 :: rest ->
        is_ascii c1 = true -> is_ascii c2 = true ->
        Py.istitle U word = true -> upper_alpha U word = false).
Proof.
  intros suffixes prefixes Hg Hr word lowered.
  apply resolve_Some in Hr as (Hs & _ & _ & _ & Hw & Hrep).
  subst lowered word. rewrite Hw, Hrep, Hg, replacement_for_LOC.
  apply skipped_false in Hs. split; [exact Hs|].
  set (w := or_else (r_word r) []).
  assert (Hlike :
            Py.endswith_any (Py.lower U w) location_suffixes
            || Py.startswith_any (Py.lower U w) location_prefixes = true
            <-> ends_with_one_of suffixes (Py.lower U w)
                \/ starts_with_one_of prefixes (Py.lower U w)).
  { rewrite orb_true_iff, endswith_any_iff, startswith_any_iff.
    reflexivity. }
  unfold location_replacement, upper_alpha, title_alpha.
  split; [|split; [|split; [|split]]].
  - intros H. now rewrite H.
  - intros H Ht. rewrite H, Ht.
    destruct (Py.endswith_any (Py.lower U w) location_suffixes
              || Py.startswith_any (Py.lower U w) location_prefixes)
      eqn:E.
    + split.
      * split; [intros _; apply Hlike; reflexivity | reflexivity].
      * intros Hn. exfalso. apply Hn, Hlike. reflexivity.
    + split; [|reflexivity].
      split.
      * intros Heq. vm_compute in Heq. discriminate.
      * intros Hl. apply Hlike in Hl. discriminate.
  - intros H Ht. rewrite H, Ht. reflexivity.
  - apply lower_ascii.
  - intros c1 c2 rest Heq H1 H2 Ht. rewrite Heq in *.
    destruct (Py.isupper U (c1 :: c2 :: rest)
              && Py.isalpha U (c1 :: c2 :: rest)) eqn:Hup; [|reflexivity].
    rewrite (upper_alpha_not_istitle U c1 c2 rest H1 H2 Hup) in Ht.
    discriminate.
Qed.

End Tables.

(** The surface [Li] is neither all-uppercase nor all-lowercase; it is
    title case, and only its lowercasing ends with the suffix [li]. *)
Lemma person_placeholder_by_casing_witness :
  let r := mk_record "PER" 0 2 "Li" in
  let e := {| e_entity := ustr "PER"; e_start := 0; e_end := 2;
              e_word := ustr "Li";
              e_replacement := Some (ustr "[SURNAME]") |} in
  entity_group_of r = ustr "PER"
  /\ resolve plain_tables r = Some e
  /\ upper_alpha plain_tables (e_word e) = false
  /\ Py.istitle plain_tables (e_word e) = true
  /\ Py.lower plain_tables (e_word e) = [] ++ ustr "li"
  /\ e_replacement e = Some (ustr "[SURNAME]").
Proof.
  intros r e.
  assert (Hg : entity_group_of r = ustr "PER") by reflexivity.
  assert (Hr : resolve plain_tables r = Some e) by reflexivity.
  assert (Hu : upper_alpha plain_tables (e_word e) = false) by reflexivity.
  assert (Ht : Py.istitle plain_tables (e_word e) = true) by reflexivity.
  assert (Hl : Py.lower plain_tables (e_word e) = [] ++ ustr "li")
    by reflexivity.
  split; [exact Hg|]. split; [exact Hr|]. split; [exact Hu|].
  split; [exact Ht|]. split; [exact Hl|].
  apply (person_placeholder_by_casing plain_tables r e Hg Hr);
    [exact Hu | exact Ht |].
  exists (ustr "li"), []. split; [|exact Hl].
  do 10 right. left. reflexivity.
Defined.

(** The surface [Newark] is title case and alphabetic; its lowercasing
    ends with no listed suffix and starts with the prefix [new]. *)
Lemma location_placeholder_by_casing_witness :
  let r := mk_record "LOC" 0 6 "Newark" in
  let e := {| e_entity := ustr "LOC"; e_start := 0; e_end := 6;
              e_word := ustr "Newark";
              e_replacement := Some (ustr "[LOCATION]") |} in
  entity_group_of r = ustr "LOC"
  /\ resolve plain_tables r = Some e
  /\ upper_alpha plain_tables (e_word e) = false
  /\ title_alpha plain_tables (e_word e) = true
  /\ Py.lower plain_tables (e_word e) = ustr "new" ++ ustr "ark"
  /\ e_replacement e = Some (ustr "[LOCATION]").
Proof.
  intros r e.
  assert (Hg : entity_group_of r = ustr "LOC") by reflexivity.
  assert (Hr : resolve plain_tables r = Some e) by reflexivity.
  assert (Hu : upper_alpha plain_tables (e_word e) = false) by reflexivity.
  assert (Ht : title_alpha plain_tables (e_word e) = true) by reflexivity.
  assert (Hl : Py.lower plain_tables (e_word e) = ustr "new" ++ ustr "ark")
    by reflexivity.
  split; [exact Hg|]. split; [exact Hr|]. split; [exact Hu|].
  split; [exact Ht|]. split; [exact Hl|].
  apply (proj1 (proj1 (proj2 (proj2
           (location_placeholder_by_casing plain_tables r e Hg Hr)))
           Hu Ht)).
  right. exists (ustr "new"), (ustr "ark"). split; [|exact Hl].
  left. reflexivity.
Defined.

(* ================================================================== *)
(** * The rewrite loop, turn by turn *)
(* ================================================================== *)

Section Threading.

Variable U : unicode_tables.







End Threading.


(** The entity that the second turn receives is the one the detector
    reports, and the working text is what the first turn left. *)
Example second_phone_turn :
  let e := phone_entity (ustr "5551234567") (0, 10) in
  In e (_detect_phone plain_tables (ustr "5551234567"))
  /\ rewrite_step plain_tables (ustr "5551234567") e
     = Return (ustr "[PHONE]",
               Some {| ed_entity := e; ed_start := 0; ed_end := 10 |})
  /\ rewrite_step plain_tables (ustr "[PHONE]") e = Raise IndexError.
Proof. vm_compute. split; [left; reflexivity | split; reflexivity]. Qed.

